(** * Advantage Actor-Critic on CartPole: the notebook's training core

    A shallow embedding of [notebooks/actor-critic.ipynb]: the episode
    runner, the discounted-return computation, the actor-critic loss, the
    training step and the outer training loop with its bounded reward
    window.

    Numeric conventions.  [tf.float32] tensors are idealised as lists of
    real numbers (rounding, overflow and NaN are outside the model);
    [tf.int32] tensors are lists of [Z], and the one place where the
    notebook adds them up ([tf.math.reduce_sum] in [train_step]) has its
    two's-complement wrap-around written out.  [statistics.mean] over
    Python integers is exact and is modelled in [Q].  Everything the
    notebook takes from its libraries without defining it (the network, the
    categorical sampler, the simulator, automatic differentiation and the
    optimizer) is a field of the record [Collaborators]. *)

From Stdlib Require Import Reals.Reals Lra Lia ZArith QArith List Bool.
Import ListNotations.

Set Warnings "-abstract-large-number".

Close Scope Q_scope.
Close Scope R_scope.

(** ** Exceptions *)

(** The Python exceptions that the embedded code can raise. *)
Inductive Exn : Type :=
| OutOfRange        (* an index outside a tensor or a fixed-size TensorArray *)
| InvalidArgument   (* element-wise operation on tensors of different shapes *)
| TypeError         (* a value that cannot be converted to a tensor *)
| StatisticsError.  (* statistics.mean of no data *)

Inductive Err (A : Type) : Type :=
| Ok (a : A)
| Raise (e : Exn).

Arguments Ok {A} a.
Arguments Raise {A} e.

Definition bind {A B : Type} (m : Err A) (k : A -> Err B) : Err B :=
  match m with
  | Ok a => k a
  | Raise e => Raise e
  end.

Notation "x <- m ;; k" := (bind m (fun x => k))
  (at level 61, m at next level, right associativity).

(** ** Tensors and tensor arrays *)

Module TF.

Local Open Scope R_scope.

(** A rank-1 [float32] tensor. *)
Definition Tensor := list R.

(** A rank-2 [float32] tensor, as the list of its rows. *)
Definition Tensor2 := list (list R).

(** [t[i]] on a rank-1 tensor: raises outside the tensor. *)
Definition tensor_get (t : Tensor) (i : nat) : Err R :=
  match nth_error t i with
  | Some x => Ok x
  | None => Raise OutOfRange
  end.

(** [tf.TensorArray(size=n, dynamic_size=d)].  Elements that were never
    written read as [ta_zero]. *)
Record TensorArray (A : Type) : Type := MkTA {
  ta_dynamic : bool;
  ta_zero : A;
  ta_data : list A
}.

Arguments MkTA {A} _ _ _.
Arguments ta_dynamic {A} _.
Arguments ta_zero {A} _.
Arguments ta_data {A} _.

Definition ta_new {A : Type} (zero : A) (size : nat) (dynamic_size : bool)
  : TensorArray A :=
  MkTA dynamic_size zero (repeat zero size).

Definition ta_size {A : Type} (ta : TensorArray A) : nat :=
  length (ta_data ta).

Fixpoint set_nth {A : Type} (l : list A) (i : nat) (v : A) : list A :=
  match l, i with
  | [], _ => []
  | _ :: l', O => v :: l'
  | x :: l', S i' => x :: set_nth l' i' v
  end.

(** [ta.write(i, v)]: inside the array the slot is set; past its end a
    dynamic array grows up to slot [i] and a fixed-size one raises.  (Every
    caller writes each slot once.) *)
Definition ta_write {A : Type} (ta : TensorArray A) (i : nat) (v : A)
  : Err (TensorArray A) :=
  if i <? ta_size ta then
    Ok (MkTA (ta_dynamic ta) (ta_zero ta) (set_nth (ta_data ta) i v))
  else if ta_dynamic ta then
    Ok (MkTA true (ta_zero ta)
          (ta_data ta ++ repeat (ta_zero ta) (i - ta_size ta) ++ [v]))
  else Raise OutOfRange.

(** [ta.stack()]. *)
Definition ta_stack {A : Type} (ta : TensorArray A) : list A := ta_data ta.

Definition reduce_sum (t : Tensor) : R := fold_right Rplus 0 t.

(** [tf.math.reduce_mean]: the sum over the number of elements. *)
Definition reduce_mean (t : Tensor) : R := reduce_sum t / INR (length t).

(** [tf.math.reduce_std]: the population standard deviation, the square
    root of the mean squared distance to the mean. *)
Definition reduce_std (t : Tensor) : R :=
  sqrt (reduce_mean (map (fun x => (x - reduce_mean t) * (x - reduce_mean t)) t)).

End TF.

Import TF.

(** ** The return calculator *)

Module Returns.

Local Open Scope R_scope.

(** [eps = np.finfo(np.float32).eps.item()], that is 2^-23. *)
Definition eps : R := / 8388608.

(** The body of [for i in tf.range(n)] in [get_expected_return], over the
    indices still to be visited. *)
Fixpoint returns_loop (rewards : Tensor) (gamma : R) (idx : list nat)
  (discounted_sum : R) (returns : TensorArray R) : Err (TensorArray R) :=
  match idx with
  | [] => Ok returns
  | i :: idx' =>
      reward <- tensor_get rewards i ;;
      let discounted_sum := reward + gamma * discounted_sum in
      returns <- ta_write returns i discounted_sum ;;
      returns_loop rewards gamma idx' discounted_sum returns
  end.

Definition get_expected_return (rewards : list Z) (gamma : R)
  (standardize : bool) : Err Tensor :=
  let n := length rewards in
  let returns := ta_new 0 n false in
  let rewards := map IZR (rev rewards) in
  let discounted_sum := 0 in
  returns <- returns_loop rewards gamma (seq 0 n) discounted_sum returns ;;
  let returns := rev (ta_stack returns) in
  if standardize then
    Ok (map (fun g => (g - reduce_mean returns) / (reduce_std returns + eps))
          returns)
  else Ok returns.

(** The discounted returns written as the recurrence of the specification:
    the last return is the last reward, every earlier one is its reward
    plus [gamma] times the next return. *)
Fixpoint discounted (gamma : R) (rewards : list R) : list R :=
  match rewards with
  | [] => []
  | r :: rest =>
      match discounted gamma rest with
      | [] => [r]
      | g :: gs => r + gamma * g :: g :: gs
      end
  end.

(** The running sums that one backward pass records, in recording order. *)
Fixpoint running_sums (gamma : R) (rewards : list R) (s : R) : list R :=
  match rewards with
  | [] => []
  | r :: rest => r + gamma * s :: running_sums gamma rest (r + gamma * s)
  end.

End Returns.

(** ** The collaborators taken from the libraries *)

(** What the notebook borrows and never defines: the network (called on a
    batch of one observation, giving the row of action logits and the
    critic value), [tf.random.categorical], the simulator behind [env],
    and the gradient tape with the Adam optimizer. *)
Record Collaborators : Type := MkCollaborators {
  Obs : Type;
  Params : Type;
  OptState : Type;
  EnvState : Type;
  Rng : Type;
  (* model(tf.expand_dims(state, 0)): the logits row and tf.squeeze(value) *)
  model_call : Params -> Obs -> Tensor * R;
  (* tf.random.categorical(logits, 1)[0, 0] *)
  categorical : Rng -> Tensor -> nat * Rng;
  (* env_step(action): next state, then (state, reward, done) as
     float32 vector, int32 and int32 *)
  env_step : EnvState -> nat -> EnvState * (Obs * Z * Z);
  (* env.reset() *)
  env_reset : EnvState -> EnvState * Obs;
  (* tape.gradient followed by optimizer.apply_gradients, as a function of
     what the tape recorded: the episode's inputs and the loss *)
  apply_gradients :
    Params -> OptState -> Obs -> EnvState -> Rng -> R -> Params * OptState
}.

(** The state outside the Python variables: the simulator and the random
    generator. *)
Record World (C : Collaborators) : Type := MkWorld {
  w_env : EnvState C;
  w_rng : Rng C
}.

Arguments w_env {C} _.
Arguments w_rng {C} _.

(** ** The episode runner *)

Module Episode.

Local Open Scope R_scope.

(** [tf.nn.softmax] on one row. *)
Definition softmax (logits : Tensor) : Tensor :=
  map (fun l => exp l / reduce_sum (map exp logits)) logits.

(** The variables that [run_episode]'s loop carries. *)
Record LoopVars (C : Collaborators) : Type := MkLoopVars {
  lv_action_probs : TensorArray R;
  lv_values : TensorArray R;
  lv_rewards : TensorArray Z;
  lv_state : Obs C;
  lv_world : World C
}.

Arguments lv_action_probs {C} _.
Arguments lv_values {C} _.
Arguments lv_rewards {C} _.
Arguments lv_state {C} _.
Arguments lv_world {C} _.

(** The body of [for t in tf.range(max_steps)], over the indices still to
    be visited; [break] leaves the loop with the variables as they are. *)
Fixpoint episode_loop (C : Collaborators) (model : Params C) (idx : list nat)
  (v : LoopVars C) : Err (LoopVars C) :=
  match idx with
  | [] => Ok v
  | t :: idx' =>
      let '(action_logits_t, value) := model_call C model (lv_state v) in
      let '(action, rng) :=
        categorical C (w_rng (lv_world v)) action_logits_t in
      let action_probs_t := softmax action_logits_t in
      values <- ta_write (lv_values v) t value ;;
      p <- tensor_get action_probs_t action ;;
      action_probs <- ta_write (lv_action_probs v) t p ;;
      let '(env, (state, reward, done)) :=
        env_step C (w_env (lv_world v)) action in
      rewards <- ta_write (lv_rewards v) t reward ;;
      let v' :=
        MkLoopVars C action_probs values rewards state (MkWorld C env rng) in
      if (done =? 0)%Z then episode_loop C model idx' v' else Ok v'
  end.

(** [run_episode].  The stacked action probabilities are bound to the name
    [actions_probs], which nothing reads: the first component returned is
    the tensor array [action_probs] itself. *)
Definition run_episode (C : Collaborators) (initial_state : Obs C)
  (model : Params C) (max_steps : nat) (w : World C)
  : Err (World C * (TensorArray R * Tensor * list Z)) :=
  let action_probs := ta_new 0 0 true in
  let values := ta_new 0 0 true in
  let rewards := ta_new 0%Z 0 true in
  v <- episode_loop C model (seq 0 max_steps)
         (MkLoopVars C action_probs values rewards initial_state w) ;;
  let action_probs := lv_action_probs v in
  let actions_probs := ta_stack action_probs in
  let values := ta_stack (lv_values v) in
  let rewards := ta_stack (lv_rewards v) in
  Ok (lv_world v, (action_probs, values, rewards)).

(** The number of environment steps of an episode, counted on the
    simulator alone: one per call of [env_step], until it reports [done]
    or [max_steps] calls were made. *)
Fixpoint steps_taken (C : Collaborators) (model : Params C) (max_steps : nat)
  (state : Obs C) (w : World C) : nat :=
  match max_steps with
  | O => O
  | S k =>
      let '(action, rng) :=
        categorical C (w_rng w) (fst (model_call C model state)) in
      let '(env, (state', _, done)) := env_step C (w_env w) action in
      if (done =? 0)%Z
      then S (steps_taken C model k state' (MkWorld C env rng))
      else 1%nat
  end.

(** The contract of [tf.random.categorical]: it draws a class index, a
    column of the logits it was given. *)
Definition sampler_in_range (C : Collaborators) : Prop :=
  forall (model : Params C) (s : Obs C) (g : Rng C),
    (fst (categorical C g (fst (model_call C model s)))
     < length (fst (model_call C model s)))%nat.

(** The loop invariant of [episode_loop]: the three arrays are dynamic and
    hold [k] elements each. *)
Definition arrays_at {C : Collaborators} (k : nat) (v : LoopVars C) : Prop :=
  (ta_dynamic (lv_action_probs v) = true /\ ta_size (lv_action_probs v) = k)
  /\ (ta_dynamic (lv_values v) = true /\ ta_size (lv_values v) = k)
  /\ (ta_dynamic (lv_rewards v) = true /\ ta_size (lv_rewards v) = k).

End Episode.

(** ** The loss calculator *)

Module Loss.

Local Open Scope R_scope.

(** Element-wise combination of two lists of one length. *)
Fixpoint map2_err {A B D : Type} (f : A -> B -> Err D) (a : list A)
  (b : list B) : Err (list D) :=
  match a, b with
  | [], [] => Ok []
  | x :: a', y :: b' =>
      z <- f x y ;;
      zs <- map2_err f a' b' ;;
      Ok (z :: zs)
  | _, _ => Raise InvalidArgument
  end.

(** An element-wise operation on two rank-2 tensors of one shape (the
    broadcasting of unequal shapes is not modelled: [train_step] passes
    tensors of one shape). *)
Definition t2_map2 (f : R -> R -> R) (a b : Tensor2) : Err Tensor2 :=
  map2_err (map2_err (fun x y => Ok (f x y))) a b.

Definition t2_map (f : R -> R) (a : Tensor2) : Tensor2 := map (map f) a.

(** [tf.math.reduce_sum] over every element of a rank-2 tensor. *)
Definition t2_reduce_sum (a : Tensor2) : R := reduce_sum (map reduce_sum a).

(** The Keras Huber function on one pair of numbers: quadratic up to
    [delta], linear beyond. *)
Definition huber (delta y_true y_pred : R) : R :=
  let error := y_pred - y_true in
  let abs_error := Rabs error in
  if Rle_dec abs_error delta
  then / 2 * (error * error)
  else delta * abs_error - / 2 * (delta * delta).

(** [tf.keras.losses.Huber(reduction=SUM)] with its default [delta = 1]:
    the loss of a sample is the mean over the last axis, and the samples'
    losses are summed. *)
Definition huber_loss (y_true y_pred : Tensor2) : Err R :=
  e <- t2_map2 (huber 1) y_true y_pred ;;
  Ok (reduce_sum (map reduce_mean e)).

Definition compute_loss (action_probs values returns : Tensor2) : Err R :=
  advantage <- t2_map2 Rminus returns values ;;
  let action_log_probs := t2_map ln action_probs in
  weighted <- t2_map2 Rmult action_log_probs advantage ;;
  let actor_loss := - t2_reduce_sum weighted in
  critic_loss <- huber_loss values returns ;;
  Ok (actor_loss + critic_loss).

(** What [tf.expand_dims] can be handed in [train_step]. *)
Inductive Value : Type :=
| VTensor (t : Tensor)
| VTensorArray (ta : TensorArray R).

(** [tf.expand_dims(x, 1)]: a rank-1 tensor becomes a column; a tensor
    array is no tensor and has no conversion to one. *)
Definition expand_dims_1 (x : Value) : Err Tensor2 :=
  match x with
  | VTensor t => Ok (map (fun e => [e]) t)
  | VTensorArray _ => Raise TypeError
  end.

(** The sum of [f 0], ..., [f (n-1)]. *)
Definition sum_upto (n : nat) (f : nat -> R) : R :=
  reduce_sum (map f (seq 0 n)).

(** The critic term of [compute_loss] on two sequences, in the shape
    [train_step] gives them. *)
Definition critic_loss (values returns : Tensor) : Err R :=
  v <- expand_dims_1 (VTensor values) ;;
  g <- expand_dims_1 (VTensor returns) ;;
  huber_loss v g.

(** The Huber function with [delta = 1] as a function of the gap
    [|y_pred - y_true|] alone. *)
Definition huber_of_gap (t : R) : R :=
  if Rle_dec t 1 then / 2 * (t * t) else t - / 2.

End Loss.

(** ** The training step *)

Module Train.

Import Returns Episode Loss.

(** A sum brought back into the 32-bit two's-complement range. *)
Definition wrap32 (z : Z) : Z := ((z + 2 ^ 31) mod 2 ^ 32 - 2 ^ 31)%Z.

(** [tf.math.reduce_sum] on an [int32] tensor. *)
Definition reduce_sum_int32 (t : list Z) : Z := wrap32 (fold_right Z.add 0%Z t).

Definition train_step (C : Collaborators) (initial_state : Obs C)
  (model : Params C) (optimizer : OptState C) (gamma : R)
  (max_steps_per_episode : nat) (w : World C)
  : Err (World C * Params C * OptState C * Z) :=
  episode <- run_episode C initial_state model max_steps_per_episode w ;;
  let '(w', (action_probs, values, rewards)) := episode in
  returns <- get_expected_return rewards gamma true ;;
  action_probs <- expand_dims_1 (VTensorArray action_probs) ;;
  values <- expand_dims_1 (VTensor values) ;;
  returns <- expand_dims_1 (VTensor returns) ;;
  loss <- compute_loss action_probs values returns ;;
  let '(model', optimizer') :=
    apply_gradients C model optimizer initial_state (w_env w) (w_rng w) loss in
  let episode_reward := reduce_sum_int32 rewards in
  Ok (w', model', optimizer', episode_reward).

End Train.

(** ** The reward history *)

Module Deque.

(** [collections.deque(maxlen=...)] of Python integers, oldest first. *)
Record deque : Type := MkDeque {
  maxlen : nat;
  items : list Z
}.

Definition new (maxlen : nat) : deque := MkDeque maxlen [].

(** [d.append(x)]: the element goes to the right end, and a deque that
    has outgrown [maxlen] drops its leftmost element. *)
Definition append (d : deque) (x : Z) : deque :=
  let grown := items d ++ [x] in
  if maxlen d <? length grown
  then MkDeque (maxlen d) (tl grown)
  else MkDeque (maxlen d) grown.

(** [statistics.mean] on integers: the exact quotient (Python hands a
    non-integral one back as the nearest float), and an error on no
    data. *)
Definition mean (data : list Z) : Err Q :=
  match data with
  | [] => Raise StatisticsError
  | _ :: _ =>
      Ok (inject_Z (fold_right Z.add 0%Z data)
          / inject_Z (Z.of_nat (length data)))%Q
  end.

End Deque.

(** ** The training loop *)

Module Trainer.

Import Deque Train.

(** The constants of the notebook's last cell. *)
Record Config : Type := MkConfig {
  min_episodes_criterion : nat;
  max_episodes : nat;
  max_steps_per_episode : nat;
  reward_threshold : Z;
  gamma : R
}.

Definition notebook_config : Config :=
  MkConfig 100 10000 500 475 (99 / 100)%R.

(** The variables of the loop; [Sys] is whatever an episode changes (the
    simulator, the random generator, the network and the optimizer). *)
Record TrainVars (Sys : Type) : Type := MkTrainVars {
  tv_sys : Sys;
  tv_episodes_reward : deque;
  tv_running_reward : Q;
  tv_i : option nat
}.

Arguments MkTrainVars {Sys} _ _ _ _.
Arguments tv_sys {Sys} _.
Arguments tv_episodes_reward {Sys} _.
Arguments tv_running_reward {Sys} _.
Arguments tv_i {Sys} _.

Inductive Control : Type := Break | NextEpisode.

(** [running_reward > reward_threshold and i >= min_episodes_criterion] *)
Definition break_test (cfg : Config) (i : nat) (running_reward : Q) : bool :=
  negb (Qle_bool running_reward (inject_Z (reward_threshold cfg)))
  && (min_episodes_criterion cfg <=? i).

(** One pass through the body of [for i in t]; [episode] stands for the
    reset of the simulator followed by [int(train_step(...))].  The
    progress display and the empty branch taken every tenth episode change
    none of the variables. *)
Definition loop_body {Sys : Type} (cfg : Config) (episode : Sys -> Err (Sys * Z))
  (i : nat) (v : TrainVars Sys) : Err (Control * TrainVars Sys) :=
  r <- episode (tv_sys v) ;;
  let '(sys, episode_reward) := r in
  let episodes_reward := append (tv_episodes_reward v) episode_reward in
  running_reward <- mean (items episodes_reward) ;;
  let v' := MkTrainVars sys episodes_reward running_reward (Some i) in
  if break_test cfg i running_reward
  then Ok (Break, v')
  else Ok (NextEpisode, v').

Fixpoint for_loop {Sys : Type} (cfg : Config) (episode : Sys -> Err (Sys * Z))
  (idx : list nat) (v : TrainVars Sys) : Err (TrainVars Sys) :=
  match idx with
  | [] => Ok v
  | i :: idx' =>
      r <- loop_body cfg episode i v ;;
      match fst r with
      | Break => Ok (snd r)
      | NextEpisode => for_loop cfg episode idx' (snd r)
      end
  end.

(** The last cell up to the final [print]: the loop over
    [trange(max_episodes)] from an empty reward history. *)
Definition initial_vars {Sys : Type} (cfg : Config) (sys : Sys) : TrainVars Sys :=
  let running_reward := 0%Q in
  let episodes_reward := new (min_episodes_criterion cfg) in
  MkTrainVars sys episodes_reward running_reward None.

Definition training_loop {Sys : Type} (cfg : Config)
  (episode : Sys -> Err (Sys * Z)) (sys : Sys) : Err (TrainVars Sys) :=
  for_loop cfg episode (seq 0 (max_episodes cfg)) (initial_vars cfg sys).

(** The episode of the notebook: [env.reset()], then [train_step]. *)
Definition notebook_episode (C : Collaborators) (cfg : Config)
  (sys : World C * Params C * OptState C)
  : Err (World C * Params C * OptState C * Z) :=
  let '(w, model, optimizer) := sys in
  let '(env, initial_state) := env_reset C (w_env w) in
  r <- train_step C initial_state model optimizer (gamma cfg)
         (max_steps_per_episode cfg) (MkWorld C env (w_rng w)) ;;
  let '(w', model', optimizer', episode_reward) := r in
  Ok (w', model', optimizer', episode_reward).

Definition notebook_training (C : Collaborators) (cfg : Config)
  (sys : World C * Params C * OptState C) :=
  training_loop cfg (notebook_episode C cfg) sys.

End Trainer.

(** ** The visualization *)

Module Render.

Local Open Scope R_scope.

(** The scan behind [np.argmax]: [best] is the largest entry met so far
    and [best_i] the first index that holds it; [i] is the index of the
    head of what is left. *)
Fixpoint argmax_from (best_i : nat) (best : R) (i : nat) (rest : Tensor)
  : nat :=
  match rest with
  | [] => best_i
  | x :: rest' =>
      if Rlt_dec best x
      then argmax_from i x (S i) rest'
      else argmax_from best_i best (S i) rest'
  end.

(** [np.argmax] on a vector: the first index of a largest entry; on an
    empty one NumPy raises [ValueError], here [None]. *)
Definition argmax (v : Tensor) : option nat :=
  match v with
  | [] => None
  | x :: rest => Some (argmax_from 0 x 1 rest)
  end.

(** What [render_episode] needs besides the collaborators of training:
    the screens and [env.render()]. *)
Record Renderer (C : Collaborators) : Type := MkRenderer {
  Screen : Type;
  render : EnvState C -> Screen
}.

Arguments Screen {C} _.
Arguments render {C} _ _.

(** The body of [for i in range(1, max_steps + 1)] in [render_episode],
    over the step numbers still to come; [None] is the [ValueError] of
    [np.argmax]. *)
Fixpoint render_loop (C : Collaborators) (V : Renderer C) (model : Params C)
  (idx : list nat) (state : Obs C) (env : EnvState C)
  (images : list (Screen V)) : option (EnvState C * list (Screen V)) :=
  match idx with
  | [] => Some (env, images)
  | i :: idx' =>
      let '(action_probs, _) := model_call C model state in
      match argmax action_probs with
      | None => None
      | Some action =>
          let '(env, (state, reward, done)) := env_step C env action in
          let images :=
            if (i mod 10 =? 0)%nat then images ++ [render V env] else images in
          if (done =? 0)%Z
          then render_loop C V model idx' state env images
          else Some (env, images)
      end
  end.

(** [render_episode]: the frames of one greedy episode, and the simulator
    it leaves behind. *)
Definition render_episode (C : Collaborators) (V : Renderer C)
  (env : EnvState C) (model : Params C) (max_steps : nat)
  : option (EnvState C * list (Screen V)) :=
  let '(env, state) := env_reset C env in
  let screen := render V env in
  let images := [screen] in
  render_loop C V model (seq 1 max_steps) state env images.

End Render.

(** ** Small collaborators to run the definitions on *)

Module Fixtures.

(** Two actions with equal logits, a sampler that always draws action 0,
    and a simulator that counts its steps, pays [reward] for each and
    reports [done] on step number [horizon] (never, when [horizon] is 0). *)
Definition counting (horizon : nat) (reward : Z) : Collaborators :=
  MkCollaborators unit unit unit nat unit
    (fun _ _ => ([0; 0]%R, 0%R))
    (fun g _ => (0%nat, g))
    (fun e _ =>
       (S e, (tt, reward, if (S e =? horizon)%nat then 1%Z else 0%Z)))
    (fun _ => (0%nat, tt))
    (fun p o _ _ _ _ => (p, o)).

Definition start (horizon : nat) (reward : Z) : World (counting horizon reward) :=
  MkWorld (counting horizon reward) 0%nat tt.

(** An episode that changes nothing and always collects [reward]. *)
Definition always (reward : Z) (sys : unit) : Err (unit * Z) :=
  Ok (sys, reward).

(** A short training run: a window of two rewards, five episodes. *)
Definition short_config : Trainer.Config :=
  Trainer.MkConfig 2 5 10 475 (99 / 100)%R.

(** Screens that show the simulator's step count. *)
Definition step_counter (horizon : nat) (reward : Z)
  : Render.Renderer (counting horizon reward) :=
  Render.MkRenderer (counting horizon reward) nat (fun e => e).

End Fixtures.

(** * Properties *)

(** ** Lists, sums and tensor arrays *)

Module TFFacts.

Local Open Scope R_scope.

Lemma set_nth_middle {A : Type} (done rest : list A) (old v : A) :
  set_nth (done ++ old :: rest) (length done) v = done ++ v :: rest.
Proof.
  induction done as [|d done IH]; simpl; [reflexivity|].
  now rewrite IH.
Qed.

Lemma tensor_get_middle (pre rest : Tensor) (x : R) :
  tensor_get (pre ++ x :: rest) (length pre) = Ok x.
Proof.
  unfold tensor_get.
  rewrite nth_error_app2 by lia.
  now rewrite Nat.sub_diag.
Qed.

Lemma reduce_sum_app (a b : Tensor) :
  reduce_sum (a ++ b) = reduce_sum a + reduce_sum b.
Proof.
  induction a as [|x a IH]; simpl; [lra|].
  fold (reduce_sum (a ++ b)) (reduce_sum a). lra.
Qed.

Lemma reduce_sum_map_div {A : Type} (f : A -> R) (c : R) (l : list A) :
  reduce_sum (map (fun x => f x / c) l) = reduce_sum (map f l) / c.
Proof.
  induction l as [|x l IH]; simpl.
  - unfold Rdiv. now rewrite Rmult_0_l.
  - fold (reduce_sum (map (fun x => f x / c) l)) (reduce_sum (map f l)).
    rewrite IH. unfold Rdiv. lra.
Qed.

Lemma reduce_sum_map_minus (m : R) (l : Tensor) :
  reduce_sum (map (fun x => x - m) l) = reduce_sum l - INR (length l) * m.
Proof.
  induction l as [|x l IH].
  - simpl. lra.
  - change (length (x :: l)) with (S (length l)). rewrite S_INR. simpl.
    fold (reduce_sum (map (fun x => x - m) l)) (reduce_sum l).
    rewrite IH. lra.
Qed.

Lemma reduce_mean_centered (l : Tensor) :
  reduce_sum l - INR (length l) * reduce_mean l = 0.
Proof.
  unfold reduce_mean. destruct l as [|x l].
  - simpl. lra.
  - assert (INR (length (x :: l)) <> 0) by (apply not_0_INR; discriminate).
    field. assumption.
Qed.

Lemma reduce_std_nonneg (l : Tensor) : 0 <= reduce_std l.
Proof. unfold reduce_std. apply sqrt_pos. Qed.

End TFFacts.

(** ** The return calculator *)

Module ReturnsFacts.

Import Returns TFFacts.

Local Open Scope R_scope.

Lemma eps_pos : 0 < eps.
Proof. unfold eps. apply Rinv_0_lt_compat. lra. Qed.

(** The loop fills the slots from the left with the running sums. *)
Lemma returns_loop_fills (gamma : R) (rest pre done : Tensor) (s : R) :
  length pre = length done ->
  returns_loop (pre ++ rest) gamma (seq (length pre) (length rest)) s
    (MkTA false 0 (done ++ repeat 0 (length rest)))
  = Ok (MkTA false 0 (done ++ running_sums gamma rest s)).
Proof.
  revert pre done s.
  induction rest as [|r rest IH]; intros pre done s Hlen; [reflexivity|].
  cbn [length seq returns_loop repeat].
  rewrite tensor_get_middle. cbn [bind].
  unfold ta_write, ta_size. cbn [ta_data ta_dynamic ta_zero].
  replace (Nat.ltb (length pre) (length (done ++ 0 :: repeat 0 (length rest))))
    with true
    by (symmetry; apply Nat.ltb_lt; rewrite length_app; simpl; lia).
  cbn [bind]. rewrite Hlen, set_nth_middle.
  specialize (IH (pre ++ [r]) (done ++ [r + gamma * s]) (r + gamma * s)).
  rewrite !length_app in IH. cbn [length] in IH.
  rewrite <- !app_assoc in IH. cbn [app] in IH.
  rewrite <- Hlen, Nat.add_1_r in IH.
  rewrite Hlen in IH at 2.
  rewrite <- Hlen.
  cbn [running_sums]. apply IH. lia.
Qed.

Lemma last_cons_default {A : Type} (l : list A) (a d : A) :
  last (a :: l) d = last l a.
Proof.
  revert a d. induction l as [|b l IH]; intros a d; [reflexivity|].
  change (last (a :: b :: l) d) with (last (b :: l) d).
  now rewrite !IH.
Qed.

Lemma running_sums_snoc (gamma : R) (l : list R) (x s : R) :
  running_sums gamma (l ++ [x]) s
  = running_sums gamma l s ++ [x + gamma * last (running_sums gamma l s) s].
Proof.
  revert s. induction l as [|y l IH]; intro s; [reflexivity|].
  cbn [app running_sums]. rewrite IH. cbn [app].
  now rewrite last_cons_default.
Qed.

Lemma last_is_hd_rev {A : Type} (l : list A) (d : A) : last l d = hd d (rev l).
Proof.
  induction l as [|x l IH] using rev_ind; [reflexivity|].
  now rewrite last_last, rev_unit.
Qed.

(** One backward pass, reversed, is the recurrence of the specification. *)
Lemma running_sums_discounted (gamma : R) (l : list R) :
  rev (running_sums gamma (rev l) 0) = discounted gamma l.
Proof.
  induction l as [|r l IH]; [reflexivity|].
  cbn [rev discounted]. rewrite running_sums_snoc, rev_unit.
  rewrite last_is_hd_rev, IH.
  destruct (discounted gamma l) as [|g gs]; cbn [hd]; [|reflexivity].
  f_equal. lra.
Qed.

Lemma get_expected_return_raw (rewards : list Z) (gamma : R) :
  get_expected_return rewards gamma false
  = Ok (discounted gamma (map IZR rewards)).
Proof.
  unfold get_expected_return, ta_new.
  pose proof (returns_loop_fills gamma (map IZR (rev rewards)) [] [] 0
                eq_refl) as H.
  cbn [app length] in H. rewrite length_map, length_rev in H.
  rewrite H. cbn [bind ta_stack ta_data].
  now rewrite (map_rev IZR), running_sums_discounted.
Qed.

Lemma get_expected_return_standardized (rewards : list Z) (gamma : R) :
  get_expected_return rewards gamma true
  = Ok (let returns := discounted gamma (map IZR rewards) in
        map (fun g => (g - reduce_mean returns) / (reduce_std returns + eps))
          returns).
Proof.
  unfold get_expected_return, ta_new.
  pose proof (returns_loop_fills gamma (map IZR (rev rewards)) [] [] 0
                eq_refl) as H.
  cbn [app length] in H. rewrite length_map, length_rev in H.
  rewrite H. cbn [bind ta_stack ta_data].
  now rewrite (map_rev IZR), running_sums_discounted.
Qed.

Lemma discounted_length (gamma : R) (l : list R) :
  length (discounted gamma l) = length l.
Proof.
  induction l as [|r l IH]; [reflexivity|].
  cbn [discounted]. destruct (discounted gamma l); simpl in *; lia.
Qed.

Lemma discounted_last (gamma : R) (l : list R) (i : nat) :
  S i = length l -> nth i (discounted gamma l) 0 = nth i l 0.
Proof.
  revert i. induction l as [|r l IH]; intros i Hi; [discriminate|].
  cbn [discounted]. pose proof (discounted_length gamma l) as Hl.
  destruct (discounted gamma l) as [|g gs] eqn:E.
  - destruct l; [|discriminate]. simpl in Hi. now replace i with 0%nat by lia.
  - destruct i as [|i]; [simpl in *; lia|].
    cbn [nth]. apply IH. simpl in Hi. lia.
Qed.

Lemma discounted_step (gamma : R) (l : list R) (i : nat) :
  (S i < length l)%nat ->
  nth i (discounted gamma l) 0
  = nth i l 0 + gamma * nth (S i) (discounted gamma l) 0.
Proof.
  revert i. induction l as [|r l IH]; intros i Hi; [simpl in Hi; lia|].
  cbn [discounted]. pose proof (discounted_length gamma l) as Hl.
  destruct (discounted gamma l) as [|g gs] eqn:E.
  - simpl in *. lia.
  - destruct i as [|i]; [reflexivity|].
    change (nth (S i) (r + gamma * g :: g :: gs) 0) with (nth i (g :: gs) 0).
    change (nth (S (S i)) (r + gamma * g :: g :: gs) 0)
      with (nth (S i) (g :: gs) 0).
    change (nth (S i) (r :: l) 0) with (nth i l 0).
    apply IH. simpl in Hi. lia.
Qed.

(** Standardizing a sequence by any divisor centres it. *)
Lemma standardized_mean (l : Tensor) (d : R) :
  reduce_mean (map (fun g => (g - reduce_mean l) / d) l) = 0.
Proof.
  unfold reduce_mean at 1.
  rewrite (reduce_sum_map_div (fun g => g - reduce_mean l)).
  rewrite reduce_sum_map_minus, reduce_mean_centered.
  unfold Rdiv. now rewrite !Rmult_0_l.
Qed.

(** Dividing by [d > 0] divides the standard deviation by [d]. *)
Lemma standardized_std (l : Tensor) (d : R) :
  0 < d ->
  reduce_std (map (fun g => (g - reduce_mean l) / d) l) = reduce_std l / d.
Proof.
  intro Hd. unfold reduce_std at 1. rewrite standardized_mean, map_map.
  rewrite (map_ext _
    (fun x => (x - reduce_mean l) * (x - reduce_mean l) / (d * d)))
    by (intro x; field; lra).
  unfold reduce_mean at 1.
  rewrite (reduce_sum_map_div
    (fun x => (x - reduce_mean l) * (x - reduce_mean l))), length_map.
  replace (reduce_sum
             (map (fun x => (x - reduce_mean l) * (x - reduce_mean l)) l)
           / (d * d) / INR (length l))
    with (reduce_mean
            (map (fun x => (x - reduce_mean l) * (x - reduce_mean l)) l)
          / (d * d))
    by (unfold reduce_mean; rewrite length_map; unfold Rdiv; ring).
  rewrite sqrt_div_alt by nra.
  rewrite sqrt_square by lra. reflexivity.
Qed.

Lemma all_equal_sum_squares (c m : R) (l : Tensor) :
  Forall (fun g => g = c) l ->
  reduce_sum (map (fun x => (x - m) * (x - m)) l)
  = INR (length l) * ((c - m) * (c - m)).
Proof.
  induction 1 as [|x l Hx _ IH].
  - simpl. lra.
  - change (length (x :: l)) with (S (length l)). rewrite S_INR. simpl.
    fold (reduce_sum (map (fun x => (x - m) * (x - m)) l)).
    rewrite IH, Hx. lra.
Qed.

Lemma all_equal_sum (c : R) (l : Tensor) :
  Forall (fun g => g = c) l -> reduce_sum l = INR (length l) * c.
Proof.
  induction 1 as [|x l Hx _ IH].
  - simpl. lra.
  - change (length (x :: l)) with (S (length l)). rewrite S_INR. simpl.
    fold (reduce_sum l). rewrite IH, Hx. lra.
Qed.

(** A constant sequence has standard deviation zero. *)
Lemma all_equal_std (c : R) (l : Tensor) :
  Forall (fun g => g = c) l -> reduce_std l = 0.
Proof.
  intro H. unfold reduce_std.
  replace (reduce_mean
             (map (fun x => (x - reduce_mean l) * (x - reduce_mean l)) l))
    with 0; [apply sqrt_0|].
  unfold reduce_mean at 1.
  rewrite (all_equal_sum_squares c (reduce_mean l) l H), length_map.
  destruct l as [|x l].
  - simpl. unfold Rdiv. now rewrite !Rmult_0_l.
  - assert (INR (length (x :: l)) <> 0) by (apply not_0_INR; discriminate).
    unfold reduce_mean. rewrite (all_equal_sum c _ H). field. assumption.
Qed.

(** C1.  With standardization off, [get_expected_return] returns a
    sequence [G] as long as the rewards, whose last element is the last
    reward and whose every earlier element is its reward plus [gamma]
    times the next element of [G]; on the rewards [1, 1, 1] with discount
    [0.5] it returns [1.75, 1.5, 1.0]. *)
Theorem get_expected_return_recurrence (rewards : list Z) (gamma : R) :
  0 <= gamma < 1 ->
  (exists G : Tensor,
      get_expected_return rewards gamma false = Ok G
      /\ length G = length rewards
      /\ (forall i, S i = length rewards ->
                    nth i G 0 = IZR (nth i rewards 0%Z))
      /\ (forall i, (S i < length rewards)%nat ->
                    nth i G 0 = IZR (nth i rewards 0%Z) + gamma * nth (S i) G 0))
  /\ get_expected_return [1; 1; 1]%Z (1 / 2) false = Ok [7 / 4; 3 / 2; 1].
Proof.
  intros _. split.
  - exists (discounted gamma (map IZR rewards)).
    split; [apply get_expected_return_raw|].
    split; [now rewrite discounted_length, length_map|].
    split; intros i Hi.
    + rewrite discounted_last by now rewrite length_map.
      change 0 with (IZR 0). apply map_nth.
    + rewrite discounted_step by now rewrite length_map.
      f_equal. change 0 with (IZR 0) at 1. apply map_nth.
  - rewrite get_expected_return_raw. cbn [map discounted].
    replace (1 + 1 / 2 * 1) with (3 / 2) by lra.
    replace (1 + 1 / 2 * (3 / 2)) with (7 / 4) by lra.
    reflexivity.
Qed.

Lemma get_expected_return_recurrence_witness :
  (exists G : Tensor,
      get_expected_return [2; 0; 1]%Z (1 / 2) false = Ok G
      /\ length G = length [2; 0; 1]%Z
      /\ (forall i, S i = length [2; 0; 1]%Z ->
                    nth i G 0 = IZR (nth i [2; 0; 1]%Z 0%Z))
      /\ (forall i, (S i < length [2; 0; 1]%Z)%nat ->
                    nth i G 0
                    = IZR (nth i [2; 0; 1]%Z 0%Z) + 1 / 2 * nth (S i) G 0))
  /\ get_expected_return [1; 1; 1]%Z (1 / 2) false = Ok [7 / 4; 3 / 2; 1].
Proof.
  apply (get_expected_return_recurrence [2; 0; 1]%Z (1 / 2)). lra.
Defined.

(** C9.  On the empty reward sequence, with standardization off,
    [get_expected_return] returns the empty sequence: the loop body is
    never entered. *)
Theorem get_expected_return_empty (gamma : R) :
  returns_loop (map IZR (rev [])) gamma (seq 0 (length (@nil Z))) 0
    (ta_new 0 0 false) = Ok (ta_new 0 0 false)
  /\ get_expected_return [] gamma false = Ok []
  /\ length (@nil R) = length (@nil Z).
Proof. repeat split. Qed.

(** C8.  Standardization divides by the standard deviation plus [eps]:
    whatever the rewards, the call returns, and the divisor is strictly
    positive; when all discounted returns are equal the standard deviation
    is zero and the divisor is [eps] itself. *)
Theorem standardize_divisor_positive (rewards : list Z) (gamma : R) :
  exists G : Tensor,
    get_expected_return rewards gamma false = Ok G
    /\ get_expected_return rewards gamma true
       = Ok (map (fun g => (g - reduce_mean G) / (reduce_std G + eps)) G)
    /\ 0 < eps
    /\ 0 < reduce_std G + eps
    /\ (forall c, Forall (fun g => g = c) G -> reduce_std G + eps = eps).
Proof.
  exists (discounted gamma (map IZR rewards)).
  split; [apply get_expected_return_raw|].
  split; [apply get_expected_return_standardized|].
  pose proof eps_pos.
  pose proof (reduce_std_nonneg (discounted gamma (map IZR rewards))).
  split; [assumption|]. split; [lra|].
  intros c Hc. rewrite (all_equal_std c _ Hc). lra.
Qed.

Lemma standardize_divisor_positive_witness :
  exists G : Tensor,
    get_expected_return [0; 0]%Z (1 / 2) false = Ok G
    /\ get_expected_return [0; 0]%Z (1 / 2) true
       = Ok (map (fun g => (g - reduce_mean G) / (reduce_std G + eps)) G)
    /\ 0 < reduce_std G + eps
    /\ reduce_std G + eps = eps.
Proof.
  destruct (standardize_divisor_positive [0; 0]%Z (1 / 2))
    as (G & Hraw & Hstd & _ & Hpos & Hequal).
  exists G. split; [exact Hraw|]. split; [exact Hstd|].
  split; [exact Hpos|].
  rewrite get_expected_return_raw in Hraw. injection Hraw as <-.
  apply (Hequal 0). cbn [map discounted].
  repeat constructor; lra.
Defined.

(** C7 (amended).  When the discounted returns have a positive standard
    deviation [s], the standardized returns have mean 0 and standard
    deviation [s / (s + eps)]: below 1 by [eps / (s + eps)], which is
    within [eps] of 1 when [s + eps >= 1]. *)
Theorem standardized_returns_mean_std (rewards : list Z) (gamma : R)
  (G : Tensor) :
  get_expected_return rewards gamma false = Ok G ->
  0 < reduce_std G ->
  exists G' : Tensor,
    get_expected_return rewards gamma true = Ok G'
    /\ length G' = length G
    /\ reduce_mean G' = 0
    /\ reduce_std G' = reduce_std G / (reduce_std G + eps)
    /\ 1 - reduce_std G' = eps / (reduce_std G + eps)
    /\ (1 <= reduce_std G + eps -> Rabs (reduce_std G' - 1) <= eps).
Proof.
  intros HG Hs. rewrite get_expected_return_raw in HG.
  injection HG as <-. rewrite get_expected_return_standardized.
  cbv zeta. set (D := discounted gamma (map IZR rewards)) in *.
  pose proof eps_pos as He.
  exists (map (fun g => (g - reduce_mean D) / (reduce_std D + eps)) D).
  split; [reflexivity|]. split; [apply length_map|].
  split; [apply standardized_mean|].
  rewrite standardized_std by lra.
  split; [reflexivity|]. split; [field; lra|].
  intro Hbig.
  replace (reduce_std D / (reduce_std D + eps) - 1)
    with (- (eps / (reduce_std D + eps))) by (field; lra).
  rewrite Rabs_Ropp, Rabs_pos_eq.
  - apply Rle_trans with (eps / 1); [|lra].
    unfold Rdiv. apply Rmult_le_compat_l; [lra|].
    apply Rinv_le_contravar; lra.
  - apply Rlt_le, Rdiv_lt_0_compat; lra.
Qed.

Lemma std_of_zero_one : reduce_std (discounted 0 (map IZR [0; 1]%Z)) = 1 / 2.
Proof.
  unfold reduce_std, reduce_mean. cbn [map discounted length reduce_sum fold_right INR].
  match goal with |- sqrt ?x = _ =>
    replace x with ((1 / 2) * (1 / 2)) by field end.
  apply sqrt_square. lra.
Qed.

Lemma standardized_returns_mean_std_witness :
  exists G' : Tensor,
    get_expected_return [0; 1]%Z 0 true = Ok G'
    /\ length G' = length (discounted 0 (map IZR [0; 1]%Z))
    /\ reduce_mean G' = 0
    /\ reduce_std G'
       = reduce_std (discounted 0 (map IZR [0; 1]%Z))
         / (reduce_std (discounted 0 (map IZR [0; 1]%Z)) + eps)
    /\ 1 - reduce_std G'
       = eps / (reduce_std (discounted 0 (map IZR [0; 1]%Z)) + eps)
    /\ (1 <= reduce_std (discounted 0 (map IZR [0; 1]%Z)) + eps ->
        Rabs (reduce_std G' - 1) <= eps).
Proof.
  apply (standardized_returns_mean_std [0; 1]%Z 0
           (discounted 0 (map IZR [0; 1]%Z))).
  - apply get_expected_return_raw.
  - rewrite std_of_zero_one. lra.
Defined.

Lemma std_of_close_pair :
  reduce_std (discounted (2 * eps) (map IZR [1; 1]%Z)) = eps.
Proof.
  pose proof eps_pos.
  unfold reduce_std, reduce_mean.
  cbn [map discounted length reduce_sum fold_right INR].
  match goal with |- sqrt ?x = _ => replace x with (eps * eps) by field end.
  apply sqrt_square. lra.
Qed.

(** C7 as stated fails: with rewards [1, 1] and discount [2 * eps] the
    discounted returns [1 + 2 eps, 1] have the positive standard deviation
    [eps], and the standardized returns have standard deviation one half,
    farther than [eps] from 1. *)
Lemma standardized_std_not_near_one :
  exists G G' : Tensor,
    0 <= 2 * eps < 1
    /\ get_expected_return [1; 1]%Z (2 * eps) false = Ok G
    /\ 0 < reduce_std G
    /\ get_expected_return [1; 1]%Z (2 * eps) true = Ok G'
    /\ reduce_std G' = 1 / 2
    /\ eps < Rabs (reduce_std G' - 1).
Proof.
  pose proof eps_pos as He.
  assert (Hsmall : eps < 1 / 4) by (unfold eps; lra).
  exists (discounted (2 * eps) (map IZR [1; 1]%Z)).
  eexists. split; [lra|].
  split; [apply get_expected_return_raw|].
  split; [rewrite std_of_close_pair; exact He|].
  split; [apply get_expected_return_standardized|].
  cbv zeta. rewrite standardized_std
    by (rewrite std_of_close_pair; lra).
  rewrite std_of_close_pair.
  replace (eps / (eps + eps)) with (1 / 2) by (field; lra).
  split; [reflexivity|].
  replace (1 / 2 - 1) with (- (1 / 2)) by lra.
  rewrite Rabs_Ropp, Rabs_pos_eq; lra.
Qed.

End ReturnsFacts.

(** ** The episode runner *)

Module EpisodeFacts.

Import Episode.

Lemma ta_write_end {A : Type} (ta : TensorArray A) (k : nat) (v : A) :
  ta_dynamic ta = true ->
  ta_size ta = k ->
  ta_write ta k v = Ok (MkTA true (ta_zero ta) (ta_data ta ++ [v])).
Proof.
  intros Hd <-. unfold ta_write.
  rewrite Nat.ltb_irrefl, Hd, Nat.sub_diag. reflexivity.
Qed.

Lemma softmax_length (logits : Tensor) : length (softmax logits) = length logits.
Proof. unfold softmax. apply length_map. Qed.

Lemma tensor_get_in_range (t : Tensor) (i : nat) :
  (i < length t)%nat -> exists x, tensor_get t i = Ok x.
Proof.
  intro Hi. unfold tensor_get.
  destruct (nth_error t i) as [x|] eqn:E; [now exists x|].
  apply nth_error_None in E. lia.
Qed.

(** From arrays of [k] elements, the loop over the indices [k, ..., k+n-1]
    returns with one more element in each array per step taken. *)
Lemma episode_loop_grows (C : Collaborators) (model : Params C) (n : nat) :
  sampler_in_range C ->
  forall (k : nat) (v : LoopVars C),
    arrays_at k v ->
    exists v' : LoopVars C,
      episode_loop C model (seq k n) v = Ok v'
      /\ arrays_at (k + steps_taken C model n (lv_state v) (lv_world v)) v'.
Proof.
  intro Hsampler. induction n as [|n IH]; intros k v Hv.
  - exists v. split; [reflexivity|]. simpl. now rewrite Nat.add_0_r.
  - destruct Hv as ((Hpd & Hps) & (Hvd & Hvs) & (Hrd & Hrs)).
    cbn [seq episode_loop steps_taken].
    pose proof (Hsampler model (lv_state v) (w_rng (lv_world v))) as Hin.
    destruct (model_call C model (lv_state v)) as [logits value].
    cbn [fst] in *.
    destruct (categorical C (w_rng (lv_world v)) logits) as [action rng].
    cbn [fst] in Hin.
    rewrite (ta_write_end _ _ _ Hvd Hvs). cbn [bind].
    destruct (tensor_get_in_range (softmax logits) action) as [p Hp];
      [now rewrite softmax_length|].
    rewrite Hp. cbn [bind].
    rewrite (ta_write_end _ _ _ Hpd Hps). cbn [bind].
    destruct (env_step C (w_env (lv_world v)) action)
      as [env [[state' reward] done]].
    rewrite (ta_write_end _ _ _ Hrd Hrs). cbn [bind].
    match goal with
    | |- context [if _ then episode_loop _ _ _ ?w else _] => set (v1 := w)
    end.
    assert (Hv1 : arrays_at (S k) v1).
    { unfold arrays_at, ta_size, v1. cbn.
      rewrite !length_app. cbn [length].
      unfold ta_size in Hps, Hvs, Hrs. repeat split; lia. }
    destruct (done =? 0)%Z.
    + destruct (IH (S k) v1 Hv1) as (v' & Hrun & Hv').
      exists v'. split; [exact Hrun|].
      now rewrite Nat.add_succ_r.
    + exists v1. split; [reflexivity|]. now rewrite Nat.add_1_r.
Qed.

Lemma steps_taken_le (C : Collaborators) (model : Params C) (n : nat) :
  forall (s : Obs C) (w : World C), (steps_taken C model n s w <= n)%nat.
Proof.
  induction n as [|n IH]; intros s w; [apply Nat.le_refl|].
  cbn [steps_taken].
  destruct (categorical C (w_rng w) (fst (model_call C model s))) as [a g].
  destruct (env_step C (w_env w) a) as [e [[s' r] d]].
  destruct (d =? 0)%Z; [specialize (IH s' (MkWorld C e g))|]; lia.
Qed.

Lemma steps_taken_pos (C : Collaborators) (model : Params C) (n : nat)
  (s : Obs C) (w : World C) :
  (1 <= n)%nat -> (1 <= steps_taken C model n s w)%nat.
Proof.
  destruct n as [|n]; [lia|]. intros _. cbn [steps_taken].
  destruct (categorical C (w_rng w) (fst (model_call C model s))) as [a g].
  destruct (env_step C (w_env w) a) as [e [[s' r] d]].
  destruct (d =? 0)%Z; lia.
Qed.

Lemma steps_taken_never_done (C : Collaborators) (model : Params C) (n : nat) :
  (forall e a, snd (snd (env_step C e a)) = 0%Z) ->
  forall (s : Obs C) (w : World C), steps_taken C model n s w = n.
Proof.
  intro Hnever. induction n as [|n IH]; intros s w; [reflexivity|].
  cbn [steps_taken].
  destruct (categorical C (w_rng w) (fst (model_call C model s))) as [a g].
  specialize (Hnever (w_env w) a).
  destruct (env_step C (w_env w) a) as [e [[s' r] d]].
  cbn [snd] in Hnever. subst d. cbn. now rewrite IH.
Qed.

(** [run_episode] returns, with three results of one size. *)
Lemma run_episode_returns (C : Collaborators) (initial_state : Obs C)
  (model : Params C) (max_steps : nat) (w : World C) :
  sampler_in_range C ->
  exists (w' : World C) (action_probs : TensorArray R) (values : Tensor)
         (rewards : list Z),
    run_episode C initial_state model max_steps w
    = Ok (w', (action_probs, values, rewards))
    /\ ta_size action_probs = steps_taken C model max_steps initial_state w
    /\ length values = steps_taken C model max_steps initial_state w
    /\ length rewards = steps_taken C model max_steps initial_state w.
Proof.
  intro Hsampler. unfold run_episode.
  destruct (episode_loop_grows C model max_steps Hsampler 0
              (MkLoopVars C (ta_new 0%R 0 true) (ta_new 0%R 0 true)
                 (ta_new 0%Z 0 true) initial_state w))
    as (v & Hrun & (_ & Hp) & (_ & Hv) & (_ & Hr)).
  { repeat split. }
  rewrite Hrun. cbn [bind].
  exists (lv_world v), (lv_action_probs v), (ta_stack (lv_values v)),
    (ta_stack (lv_rewards v)).
  split; [reflexivity|]. cbn in Hp, Hv, Hr. auto.
Qed.

(** C2.  For a step cap of at least one, [run_episode] returns the chosen
    actions' probabilities, the value estimates and the rewards, all of
    one length: the number of environment steps taken, which is at least
    one and at most the cap, and exactly the cap when the environment
    never signals termination. *)
Theorem run_episode_lengths (C : Collaborators) (initial_state : Obs C)
  (model : Params C) (max_steps : nat) (w : World C) :
  sampler_in_range C ->
  (1 <= max_steps)%nat ->
  exists (w' : World C) (action_probs : TensorArray R) (values : Tensor)
         (rewards : list Z),
    run_episode C initial_state model max_steps w
    = Ok (w', (action_probs, values, rewards))
    /\ ta_size action_probs = steps_taken C model max_steps initial_state w
    /\ length values = steps_taken C model max_steps initial_state w
    /\ length rewards = steps_taken C model max_steps initial_state w
    /\ (1 <= steps_taken C model max_steps initial_state w <= max_steps)%nat
    /\ ((forall e a, snd (snd (env_step C e a)) = 0%Z) ->
        steps_taken C model max_steps initial_state w = max_steps).
Proof.
  intros Hsampler Hcap.
  destruct (run_episode_returns C initial_state model max_steps w Hsampler)
    as (w' & ap & vs & rs & Hrun & Hap & Hvs & Hrs).
  exists w', ap, vs, rs.
  repeat split; try assumption.
  - now apply steps_taken_pos.
  - apply steps_taken_le.
  - intro Hnever. now apply steps_taken_never_done.
Qed.

Lemma counting_sampler_in_range (horizon : nat) (reward : Z) :
  sampler_in_range (Fixtures.counting horizon reward).
Proof. intros model s g. cbn. lia. Qed.

Lemma run_episode_lengths_witness :
  exists (w' : World (Fixtures.counting 0 1)) (action_probs : TensorArray R)
         (values : Tensor) (rewards : list Z),
    run_episode (Fixtures.counting 0 1) tt tt 3 (Fixtures.start 0 1)
    = Ok (w', (action_probs, values, rewards))
    /\ ta_size action_probs = 3%nat
    /\ length values = 3%nat
    /\ length rewards = 3%nat.
Proof.
  destruct (run_episode_lengths (Fixtures.counting 0 1) tt tt 3
              (Fixtures.start 0 1) (counting_sampler_in_range 0 1)
              (le_S _ _ (le_S _ _ (le_n 1))))
    as (w' & ap & vs & rs & Hrun & Hap & Hvs & Hrs & _ & Hnever).
  exists w', ap, vs, rs.
  rewrite (Hnever (fun _ _ => eq_refl)) in Hap, Hvs, Hrs.
  repeat split; assumption.
Defined.

End EpisodeFacts.

(** ** The loss calculator *)

Module LossFacts.

Import Loss TFFacts.

Local Open Scope R_scope.

(** The column tensor of a sequence, what [tf.expand_dims(x, 1)] builds. *)
Local Abbreviation column l := (map (fun e : R => [e]) l).

Lemma reduce_sum_cons (x : R) (l : Tensor) :
  reduce_sum (x :: l) = x + reduce_sum l.
Proof. reflexivity. Qed.

Lemma map2_err_total (f : R -> R -> R) (a b : Tensor) :
  length a = length b ->
  map2_err (fun x y => Ok (f x y)) a b
  = Ok (map (fun p => f (fst p) (snd p)) (combine a b)).
Proof.
  revert b.
  induction a as [|x a IH]; intros [|y b] Hlen; try discriminate;
    [reflexivity|].
  cbn [map combine map2_err bind fst snd].
  rewrite IH by (simpl in Hlen; lia). reflexivity.
Qed.

Lemma t2_map2_columns (f : R -> R -> R) (a b : Tensor) :
  length a = length b ->
  t2_map2 f (column a) (column b)
  = Ok (column (map (fun p => f (fst p) (snd p)) (combine a b))).
Proof.
  unfold t2_map2. revert b.
  induction a as [|x a IH]; intros [|y b] Hlen; try discriminate;
    [reflexivity|].
  cbn [map combine map2_err bind fst snd].
  rewrite IH by (simpl in Hlen; lia). reflexivity.
Qed.

Lemma t2_reduce_sum_column (l : Tensor) : t2_reduce_sum (column l) = reduce_sum l.
Proof.
  unfold t2_reduce_sum. induction l as [|x l IH]; [reflexivity|].
  cbn [map]. rewrite !reduce_sum_cons, IH.
  change (reduce_sum []) with 0. lra.
Qed.

Lemma reduce_mean_rows_column (l : Tensor) :
  reduce_sum (map reduce_mean (column l)) = reduce_sum l.
Proof.
  induction l as [|x l IH]; [reflexivity|].
  cbn [map]. rewrite !reduce_sum_cons, IH.
  unfold reduce_mean. cbn [reduce_sum fold_right length INR]. field.
Qed.

(** A map over two sequences of one length, read index by index. *)
Lemma map_combine_indexed (g : R * R -> R) (a b : Tensor) :
  length a = length b ->
  map g (combine a b)
  = map (fun i => g (nth i a 0, nth i b 0)) (seq 0 (length a)).
Proof.
  revert b. induction a as [|x a IH]; intros [|y b] Hlen; try discriminate;
    [reflexivity|].
  cbn [combine map length seq nth]. f_equal.
  rewrite <- seq_shift, map_map. apply IH. simpl in Hlen. lia.
Qed.

Lemma sum_upto_succ (n : nat) (f : nat -> R) :
  sum_upto (S n) f = sum_upto n f + f n.
Proof.
  unfold sum_upto. rewrite seq_S, map_app, reduce_sum_app. simpl. lra.
Qed.

Lemma sum_upto_ext (n : nat) (f g : nat -> R) :
  (forall i, (i < n)%nat -> f i = g i) -> sum_upto n f = sum_upto n g.
Proof.
  induction n as [|n IH]; intro H; [reflexivity|].
  rewrite !sum_upto_succ, IH, (H n) by auto with arith. reflexivity.
Qed.

Lemma sum_upto_le (n : nat) (f g : nat -> R) :
  (forall i, (i < n)%nat -> f i <= g i) -> sum_upto n f <= sum_upto n g.
Proof.
  induction n as [|n IH]; intro H; [unfold sum_upto; simpl; lra|].
  rewrite !sum_upto_succ.
  specialize (H n (Nat.lt_succ_diag_r n)) as Hn.
  assert (sum_upto n f <= sum_upto n g) by (apply IH; auto with arith).
  lra.
Qed.

Lemma sum_upto_lt (n : nat) (f g : nat -> R) :
  (forall i, (i < n)%nat -> f i <= g i) ->
  (exists i, (i < n)%nat /\ f i < g i) ->
  sum_upto n f < sum_upto n g.
Proof.
  induction n as [|n IH]; intros Hle (i & Hi & Hlt); [lia|].
  rewrite !sum_upto_succ.
  pose proof (Hle n (Nat.lt_succ_diag_r n)) as Hn.
  assert (Hrest : forall j, (j < n)%nat -> f j <= g j) by auto with arith.
  destruct (Nat.eq_dec i n) as [->|Hne].
  - pose proof (sum_upto_le n f g Hrest). lra.
  - assert (sum_upto n f < sum_upto n g)
      by (apply IH; [assumption | exists i; split; [lia | assumption]]).
    lra.
Qed.

Lemma huber_by_gap (y_true y_pred : R) :
  huber 1 y_true y_pred = huber_of_gap (Rabs (y_pred - y_true)).
Proof.
  unfold huber, huber_of_gap. cbv zeta.
  destruct (Rle_dec (Rabs (y_pred - y_true)) 1).
  - f_equal. unfold Rabs. destruct (Rcase_abs (y_pred - y_true)); ring.
  - ring.
Qed.

Lemma huber_of_gap_le (t u : R) :
  0 <= t -> t <= u -> huber_of_gap t <= huber_of_gap u.
Proof.
  intros Ht Htu. unfold huber_of_gap.
  destruct (Rle_dec t 1), (Rle_dec u 1); nra.
Qed.

Lemma huber_of_gap_lt (t u : R) :
  0 <= t -> t < u -> huber_of_gap t < huber_of_gap u.
Proof.
  intros Ht Htu. unfold huber_of_gap.
  destruct (Rle_dec t 1), (Rle_dec u 1); nra.
Qed.

Lemma huber_of_gap_0 : huber_of_gap 0 = 0.
Proof. unfold huber_of_gap. destruct (Rle_dec 0 1); lra. Qed.

Lemma huber_loss_columns (values returns : Tensor) :
  length values = length returns ->
  huber_loss (column values) (column returns)
  = Ok (sum_upto (length values)
          (fun i => huber 1 (nth i values 0) (nth i returns 0))).
Proof.
  intro Hlen. unfold huber_loss.
  rewrite t2_map2_columns by assumption. cbn [bind].
  rewrite reduce_mean_rows_column, map_combine_indexed by assumption.
  reflexivity.
Qed.

(** On a single row the Keras loss averages: the sum over the samples is
    the one row's mean.  The columns of [train_step] make every element a
    sample of its own. *)
Lemma huber_loss_row_is_mean (values returns : Tensor) :
  length values = length returns ->
  huber_loss [values] [returns]
  = Ok (sum_upto (length values)
          (fun i => huber 1 (nth i values 0) (nth i returns 0))
        / INR (length values)).
Proof.
  intro Hlen. unfold huber_loss, t2_map2. cbn [map2_err].
  rewrite map2_err_total by assumption. cbn [bind map reduce_sum fold_right].
  unfold reduce_mean. rewrite length_map, length_combine, <- Hlen, Nat.min_id.
  rewrite map_combine_indexed by assumption.
  f_equal. unfold sum_upto. cbn [fst snd]. lra.
Qed.

Lemma nth_map_in_range {A B : Type} (f : A -> B) (l : list A) (i : nat)
  (d : B) (d' : A) :
  (i < length l)%nat -> nth i (map f l) d = f (nth i l d').
Proof.
  intro Hi. rewrite (nth_indep (map f l) d (f d')) by now rewrite length_map.
  apply map_nth.
Qed.

Lemma compute_loss_columns (action_probs values returns : Tensor) :
  length action_probs = length values ->
  length values = length returns ->
  compute_loss (column action_probs) (column values) (column returns)
  = Ok (- sum_upto (length action_probs)
            (fun i => ln (nth i action_probs 0)
                      * (nth i returns 0 - nth i values 0))
        + sum_upto (length action_probs)
            (fun i => huber 1 (nth i values 0) (nth i returns 0))).
Proof.
  intros Hpv Hvg. unfold compute_loss.
  rewrite t2_map2_columns by lia. cbn [bind].
  unfold t2_map. rewrite map_map.
  change (map (fun x : R => map ln [x]) action_probs)
    with (map (fun x : R => [ln x]) action_probs).
  rewrite <- (map_map ln (fun e => [e])).
  rewrite t2_map2_columns
    by (rewrite !length_map, length_combine; lia).
  cbn [bind]. rewrite huber_loss_columns by assumption. cbn [bind].
  rewrite t2_reduce_sum_column.
  rewrite map_combine_indexed
    by (rewrite !length_map, length_combine; lia).
  rewrite length_map, Hpv. f_equal. f_equal. f_equal.
  fold (sum_upto (length values)
          (fun i => fst (nth i (map ln action_probs) 0,
                         nth i (map (fun p => fst p - snd p)
                                  (combine returns values)) 0)
                    * snd (nth i (map ln action_probs) 0,
                           nth i (map (fun p => fst p - snd p)
                                    (combine returns values)) 0))).
  apply sum_upto_ext. intros i Hi. cbn [fst snd].
  rewrite map_combine_indexed by lia.
  rewrite (nth_map_in_range ln action_probs i 0 0) by lia.
  rewrite (nth_map_in_range _ (seq 0 (length returns)) i 0 0%nat)
    by (rewrite length_seq; lia).
  rewrite seq_nth by lia. reflexivity.
Qed.

(** C3.  On the chosen actions' probabilities [P], the value estimates
    [V] and the returns [G], three sequences of one length handed over as
    columns the way [train_step] does, [compute_loss] returns minus the
    sum of [log P[i] * (G[i] - V[i])] plus the Huber loss between [V] and
    [G] summed over the steps. *)
Theorem compute_loss_actor_plus_critic (P V G : Tensor) :
  length P = length V ->
  length V = length G ->
  exists p v g : Tensor2,
    expand_dims_1 (VTensor P) = Ok p
    /\ expand_dims_1 (VTensor V) = Ok v
    /\ expand_dims_1 (VTensor G) = Ok g
    /\ huber_loss v g
       = Ok (sum_upto (length P) (fun i => huber 1 (nth i V 0) (nth i G 0)))
    /\ compute_loss p v g
       = Ok (- sum_upto (length P)
                 (fun i => ln (nth i P 0) * (nth i G 0 - nth i V 0))
             + sum_upto (length P)
                 (fun i => huber 1 (nth i V 0) (nth i G 0))).
Proof.
  intros Hpv Hvg.
  exists (column P), (column V), (column G).
  repeat split.
  - rewrite Hpv. now apply huber_loss_columns.
  - now apply compute_loss_columns.
Qed.

Lemma compute_loss_actor_plus_critic_witness :
  exists p v g : Tensor2,
    expand_dims_1 (VTensor [1 / 2; 1 / 4]) = Ok p
    /\ expand_dims_1 (VTensor [0; 1]) = Ok v
    /\ expand_dims_1 (VTensor [3; 1]) = Ok g
    /\ huber_loss v g
       = Ok (sum_upto 2 (fun i => huber 1 (nth i [0; 1] 0) (nth i [3; 1] 0)))
    /\ compute_loss p v g
       = Ok (- sum_upto 2
                 (fun i => ln (nth i [1 / 2; 1 / 4] 0)
                           * (nth i [3; 1] 0 - nth i [0; 1] 0))
             + sum_upto 2
                 (fun i => huber 1 (nth i [0; 1] 0) (nth i [3; 1] 0))).
Proof.
  apply (compute_loss_actor_plus_critic [1 / 2; 1 / 4] [0; 1] [3; 1]);
    reflexivity.
Defined.

Lemma critic_loss_sum (values returns : Tensor) :
  length values = length returns ->
  critic_loss values returns
  = Ok (sum_upto (length values)
          (fun i => huber_of_gap (Rabs (nth i returns 0 - nth i values 0)))).
Proof.
  intro Hlen. unfold critic_loss. cbn [expand_dims_1 bind].
  rewrite huber_loss_columns by assumption. f_equal.
  apply sum_upto_ext. intros i _. apply huber_by_gap.
Qed.

(** C4.  The critic term of the loss is never negative, it is zero when
    the value estimates are the returns, and it grows with the gaps: if
    no step's gap [|G[i] - V[i]|] shrinks the term does not shrink, and if
    moreover some step's gap widens the term is strictly larger. *)
Theorem critic_loss_nonneg_zero_monotone (V G V' G' : Tensor) :
  length V = length G ->
  length V' = length V ->
  length G' = length V ->
  exists c c' : R,
    critic_loss V G = Ok c
    /\ critic_loss V' G' = Ok c'
    /\ 0 <= c
    /\ critic_loss G G = Ok 0
    /\ ((forall i, (i < length V)%nat ->
                   Rabs (nth i G 0 - nth i V 0)
                   <= Rabs (nth i G' 0 - nth i V' 0)) ->
        c <= c'
        /\ ((exists i, (i < length V)%nat
                       /\ Rabs (nth i G 0 - nth i V 0)
                          < Rabs (nth i G' 0 - nth i V' 0)) ->
            c < c')).
Proof.
  intros HVG HV' HG'.
  rewrite (critic_loss_sum V G), (critic_loss_sum V' G'), (critic_loss_sum G G)
    by lia.
  rewrite HV'. do 2 eexists.
  split; [reflexivity|]. split; [reflexivity|].
  split; [|split].
  - replace 0 with (sum_upto (length V) (fun _ => 0)).
    + apply sum_upto_le. intros i _.
      rewrite <- huber_of_gap_0 at 1.
      apply huber_of_gap_le; [lra | apply Rabs_pos].
    + clear. induction (length V) as [|n IH]; [reflexivity|].
      rewrite sum_upto_succ, IH. lra.
  - f_equal. rewrite <- HVG.
    rewrite (sum_upto_ext (length V) _ (fun _ => 0)).
    + clear. induction (length V) as [|n IH]; [reflexivity|].
      rewrite sum_upto_succ, IH. lra.
    + intros i _. rewrite Rminus_diag, Rabs_R0. apply huber_of_gap_0.
  - intro Hgap. split.
    + apply sum_upto_le. intros i Hi.
      apply huber_of_gap_le; [apply Rabs_pos | now apply Hgap].
    + intros (i & Hi & Hlt). apply sum_upto_lt.
      * intros j Hj.
        apply huber_of_gap_le; [apply Rabs_pos | now apply Hgap].
      * exists i. split; [assumption|].
        apply huber_of_gap_lt; [apply Rabs_pos | assumption].
Qed.

Ltac by_cases_on_abs :=
  unfold Rabs;
  repeat match goal with
         | |- context [Rcase_abs ?x] => destruct (Rcase_abs x)
         end;
  lra.

Lemma critic_loss_nonneg_zero_monotone_witness :
  exists c c' : R,
    critic_loss [0; 0] [1; 2] = Ok c
    /\ critic_loss [0; 0] [1; 3] = Ok c'
    /\ 0 <= c
    /\ critic_loss [1; 2] [1; 2] = Ok 0
    /\ c <= c'
    /\ c < c'.
Proof.
  destruct (critic_loss_nonneg_zero_monotone [0; 0] [1; 2] [0; 0] [1; 3]
              eq_refl eq_refl eq_refl)
    as (c & c' & Hc & Hc' & Hpos & Hzero & Hmono).
  assert (Hgaps : forall i, (i < length [0; 0])%nat ->
                    Rabs (nth i [1; 2] 0 - nth i [0; 0] 0)
                    <= Rabs (nth i [1; 3] 0 - nth i [0; 0] 0)).
  { intros [|[|i]] Hi; cbn [nth]; by_cases_on_abs. }
  destruct (Hmono Hgaps) as [Hle Hlt].
  exists c, c'. repeat split; try assumption.
  apply Hlt. exists 1%nat. split; [simpl; lia|].
  cbn [nth]. by_cases_on_abs.
Defined.

End LossFacts.

(** ** The training step *)

Module TrainFacts.

Import Returns Episode Loss Train EpisodeFacts ReturnsFacts.

(** Whatever the episode, [train_step] fails at [tf.expand_dims]: the
    first of the three values it converts is the tensor array that
    [run_episode] returned in place of the stacked probabilities. *)
Lemma train_step_type_error (C : Collaborators) (initial_state : Obs C)
  (model : Params C) (optimizer : OptState C) (gamma : R)
  (max_steps_per_episode : nat) (w : World C) :
  sampler_in_range C ->
  train_step C initial_state model optimizer gamma max_steps_per_episode w
  = Raise TypeError.
Proof.
  intro Hsampler. unfold train_step.
  destruct (run_episode_returns C initial_state model max_steps_per_episode w
              Hsampler) as (w' & ap & vs & rs & Hrun & _).
  rewrite Hrun. cbn [bind].
  rewrite get_expected_return_standardized. reflexivity.
Qed.

End TrainFacts.

(** ** The reward history *)

Module DequeFacts.

Import Deque.

Lemma append_maxlen (d : deque) (x : Z) : maxlen (append d x) = maxlen d.
Proof. unfold append. now destruct (maxlen d <? _). Qed.

Lemma append_bounded (d : deque) (x : Z) :
  length (items d) <= maxlen d ->
  length (items (append d x)) <= maxlen d.
Proof.
  intro Hd. unfold append.
  destruct (Nat.ltb_spec (maxlen d) (length (items d ++ [x]))) as [Hlt|Hle];
    cbn [items]; [|exact Hle].
  destruct (items d) as [|y l]; cbn [app tl length] in *; [lia|].
  rewrite length_app. cbn [length]. lia.
Qed.

(** Appending to a full deque drops the oldest element and nothing else. *)
Lemma append_full (d : deque) (x : Z) :
  length (items d) = maxlen d ->
  0 < maxlen d ->
  items (append d x) = tl (items d) ++ [x].
Proof.
  intros Hfull Hpos. unfold append.
  rewrite length_app, Hfull. cbn [length].
  replace (maxlen d <? maxlen d + 1) with true
    by (symmetry; apply Nat.ltb_lt; lia).
  cbn [items]. destruct (items d) as [|y l]; [simpl in Hfull; lia|].
  reflexivity.
Qed.

Lemma appends_invariant (xs : list Z) (d : deque) :
  length (items d) <= maxlen d ->
  maxlen (fold_left append xs d) = maxlen d
  /\ length (items (fold_left append xs d)) <= maxlen d.
Proof.
  revert d. induction xs as [|x xs IH]; intros d Hd; [now split|].
  cbn [fold_left].
  destruct (IH (append d x)) as [Hm Hl].
  - rewrite append_maxlen. now apply append_bounded.
  - rewrite append_maxlen in Hm, Hl. now split.
Qed.

(** C5.  The reward history never holds more than its capacity; once it
    is full, one more append drops exactly the oldest entry; and with
    capacity 3 the appends 10, 20, 30, 40 leave 20, 30, 40, whose mean
    is 30. *)
Theorem reward_history_bounded_fifo (capacity : nat) (xs : list Z) (x : Z) :
  maxlen (fold_left append xs (new capacity)) = capacity
  /\ length (items (fold_left append xs (new capacity))) <= capacity
  /\ (length (items (fold_left append xs (new capacity))) = capacity ->
      0 < capacity ->
      items (append (fold_left append xs (new capacity)) x)
      = tl (items (fold_left append xs (new capacity))) ++ [x])
  /\ items (fold_left append [10; 20; 30; 40]%Z (new 3)) = [20; 30; 40]%Z
  /\ exists m : Q,
       mean (items (fold_left append [10; 20; 30; 40]%Z (new 3))) = Ok m
       /\ (m == 30)%Q.
Proof.
  destruct (appends_invariant xs (new capacity)) as [Hm Hl];
    [simpl; lia|].
  cbn [maxlen new] in Hm, Hl.
  split; [exact Hm|]. split; [exact Hl|]. split.
  - intros Hfull Hpos. apply append_full; rewrite Hm; assumption.
  - split; [reflexivity|].
    eexists. split; [reflexivity|]. reflexivity.
Qed.

Lemma reward_history_bounded_fifo_witness :
  maxlen (fold_left append [10; 20; 30]%Z (new 3)) = 3
  /\ length (items (fold_left append [10; 20; 30]%Z (new 3))) <= 3
  /\ items (append (fold_left append [10; 20; 30]%Z (new 3)) 40)
     = tl (items (fold_left append [10; 20; 30]%Z (new 3))) ++ [40%Z]
  /\ items (fold_left append [10; 20; 30; 40]%Z (new 3)) = [20; 30; 40]%Z
  /\ exists m : Q,
       mean (items (fold_left append [10; 20; 30; 40]%Z (new 3))) = Ok m
       /\ (m == 30)%Q.
Proof.
  destruct (reward_history_bounded_fifo 3 [10; 20; 30]%Z 40)
    as (Hm & Hl & Hfull & Hex & Hmean).
  split; [exact Hm|]. split; [exact Hl|].
  split; [apply Hfull; [reflexivity | apply Nat.lt_0_succ]|].
  split; [exact Hex | exact Hmean].
Defined.

End DequeFacts.

(** ** The training loop *)

Module TrainerFacts.

Import Deque Train Trainer.

Lemma break_test_true (cfg : Config) (i : nat) (m : Q) :
  break_test cfg i m = true
  <-> (inject_Z (reward_threshold cfg) < m)%Q
      /\ min_episodes_criterion cfg <= i.
Proof.
  unfold break_test. rewrite andb_true_iff, negb_true_iff, Nat.leb_le.
  split; intros [Hq Hi]; (split; [|exact Hi]).
  - apply Qnot_le_lt. intro Hle. apply Qle_bool_iff in Hle. congruence.
  - destruct (Qle_bool m (inject_Z (reward_threshold cfg))) eqn:E;
      [|reflexivity].
    apply Qle_bool_iff in E. now apply Qlt_not_le in Hq.
Qed.

(** What one pass of the body leaves behind when the episode returns: the
    episode's reward appended to the window, and the window's mean. *)
Lemma loop_body_bookkeeping {Sys : Type} (cfg : Config)
  (episode : Sys -> Err (Sys * Z)) (i : nat) (v : TrainVars Sys) (sys' : Sys)
  (r : Z) (m : Q) :
  episode (tv_sys v) = Ok (sys', r) ->
  mean (items (append (tv_episodes_reward v) r)) = Ok m ->
  loop_body cfg episode i v
  = Ok (if break_test cfg i m then Break else NextEpisode,
        MkTrainVars sys' (append (tv_episodes_reward v) r) m (Some i)).
Proof.
  intros Hep Hmean. unfold loop_body.
  rewrite Hep. cbn [bind]. rewrite Hmean. cbn [bind].
  now destruct (break_test cfg i m).
Qed.

Lemma loop_body_index {Sys : Type} (cfg : Config)
  (episode : Sys -> Err (Sys * Z)) (i : nat) (v : TrainVars Sys) (c : Control)
  (v' : TrainVars Sys) :
  loop_body cfg episode i v = Ok (c, v') -> tv_i v' = Some i.
Proof.
  unfold loop_body.
  destruct (episode (tv_sys v)) as [[sys r]|]; [|discriminate].
  cbn [bind].
  destruct (mean (items (append (tv_episodes_reward v) r))) as [m|];
    [|discriminate].
  cbn [bind].
  destruct (break_test cfg i m); intro H; injection H as _ <-; reflexivity.
Qed.

(** A loop with episodes left to run ends on one of them. *)
Lemma for_loop_last_index {Sys : Type} (cfg : Config)
  (episode : Sys -> Err (Sys * Z)) (n : nat) :
  forall (a : nat) (v f : TrainVars Sys),
    for_loop cfg episode (seq a (S n)) v = Ok f ->
    exists j, tv_i f = Some j /\ a <= j.
Proof.
  induction n as [|n IH]; intros a v f; cbn [seq for_loop].
  - destruct (loop_body cfg episode a v) as [[c v']|] eqn:E; [|discriminate].
    cbn [bind fst snd].
    destruct c; intro H; injection H as <-; exists a;
      (split; [eapply loop_body_index; eassumption | apply Nat.le_refl]).
  - destruct (loop_body cfg episode a v) as [[c v']|] eqn:E; [|discriminate].
    cbn [bind fst snd]. destruct c.
    + intro H; injection H as <-. exists a.
      split; [eapply loop_body_index; eassumption | apply Nat.le_refl].
    + intro H. apply (IH (S a)) in H. destruct H as (j & Hj & Hle).
      exists j. split; [assumption | lia].
Qed.

(** C6 (amended).  After an episode that returned, the loop stops if and
    only if the running average exceeds the threshold and the episode's
    zero-based index has reached the minimum episode count (more than
    that many episodes have elapsed), or the episode was the last of the
    budget; otherwise it goes on with the next episode. *)
Theorem training_loop_stops_iff {Sys : Type} (cfg : Config)
  (episode : Sys -> Err (Sys * Z)) (i : nat) (v : TrainVars Sys) (sys' : Sys)
  (r : Z) (m : Q) :
  i < max_episodes cfg ->
  episode (tv_sys v) = Ok (sys', r) ->
  mean (items (append (tv_episodes_reward v) r)) = Ok m ->
  (((inject_Z (reward_threshold cfg) < m)%Q
    /\ min_episodes_criterion cfg <= i)
   \/ S i = max_episodes cfg ->
   for_loop cfg episode (seq i (max_episodes cfg - i)) v
   = Ok (MkTrainVars sys' (append (tv_episodes_reward v) r) m (Some i)))
  /\ (~ (((inject_Z (reward_threshold cfg) < m)%Q
          /\ min_episodes_criterion cfg <= i)
         \/ S i = max_episodes cfg) ->
      S i < max_episodes cfg
      /\ for_loop cfg episode (seq i (max_episodes cfg - i)) v
         = for_loop cfg episode (seq (S i) (max_episodes cfg - S i))
             (MkTrainVars sys' (append (tv_episodes_reward v) r) m (Some i)))
  /\ (forall f : TrainVars Sys,
        for_loop cfg episode (seq i (max_episodes cfg - i)) v = Ok f ->
        (tv_i f = Some i
         <-> ((inject_Z (reward_threshold cfg) < m)%Q
              /\ min_episodes_criterion cfg <= i)
             \/ S i = max_episodes cfg)).
Proof.
  intros Hi Hep Hmean.
  pose proof (loop_body_bookkeeping cfg episode i v sys' r m Hep Hmean)
    as Hbody.
  pose proof (break_test_true cfg i m) as Htest.
  replace (max_episodes cfg - i) with (S (max_episodes cfg - S i)) by lia.
  cbn [seq for_loop]. rewrite Hbody. cbn [bind fst snd].
  assert (Hstop :
    ((inject_Z (reward_threshold cfg) < m)%Q
     /\ min_episodes_criterion cfg <= i)
    \/ S i = max_episodes cfg ->
    match (if break_test cfg i m then Break else NextEpisode) with
    | Break =>
        Ok (MkTrainVars sys' (append (tv_episodes_reward v) r) m (Some i))
    | NextEpisode =>
        for_loop cfg episode (seq (S i) (max_episodes cfg - S i))
          (MkTrainVars sys' (append (tv_episodes_reward v) r) m (Some i))
    end
    = Ok (MkTrainVars sys' (append (tv_episodes_reward v) r) m (Some i))).
  { intros [Hbreak|Hlast].
    - apply Htest in Hbreak. now rewrite Hbreak.
    - destruct (break_test cfg i m); [reflexivity|].
      replace (max_episodes cfg - S i) with 0 by lia. reflexivity. }
  assert (Hgo :
    ~ (((inject_Z (reward_threshold cfg) < m)%Q
        /\ min_episodes_criterion cfg <= i)
       \/ S i = max_episodes cfg) ->
    S i < max_episodes cfg /\ break_test cfg i m = false).
  { intro Hno. split; [lia|].
    destruct (break_test cfg i m) eqn:E; [|reflexivity].
    exfalso. apply Hno. left. now apply Htest. }
  split; [exact Hstop|]. split.
  - intro Hno. destruct (Hgo Hno) as [Hlt Hfalse].
    split; [exact Hlt|]. now rewrite Hfalse.
  - intros f Hf. split.
    + intro Hlast.
      destruct (Nat.eq_dec (S i) (max_episodes cfg)) as [|Hne];
        [now right|].
      destruct (break_test cfg i m) eqn:E; [left; now apply Htest|].
      exfalso.
      replace (max_episodes cfg - S i)
        with (S (max_episodes cfg - S (S i))) in Hf by lia.
      apply for_loop_last_index in Hf. destruct Hf as (j & Hj & Hle).
      rewrite Hlast in Hj. injection Hj as <-. lia.
    + intro Hcond. rewrite (Hstop Hcond) in Hf. now injection Hf as <-.
Qed.

Lemma training_loop_stops_iff_witness :
  for_loop Fixtures.short_config (Fixtures.always 500) (seq 2 (5 - 2))
    (initial_vars Fixtures.short_config tt)
  = Ok (MkTrainVars tt (append (new 2) 500) (inject_Z 500 / inject_Z 1)%Q
          (Some 2)).
Proof.
  destruct (training_loop_stops_iff Fixtures.short_config
              (Fixtures.always 500) 2
              (initial_vars Fixtures.short_config tt) tt 500
              (inject_Z 500 / inject_Z 1)%Q
              (le_S _ _ (le_S _ _ (le_n 3))) eq_refl eq_refl)
    as (Hstop & _).
  apply Hstop. left. split; [reflexivity | apply le_n].
Defined.

(** C6 as stated fails: when every episode collects 500, the hundredth
    episode (index 99) leaves a running average of 500, above the
    threshold of 475, with one hundred episodes elapsed and the budget far
    from spent; the loop goes on, and stops after the episode of
    index 100. *)
Lemma loop_goes_on_after_hundred_episodes :
  exists v v' f : TrainVars unit,
    for_loop notebook_config (Fixtures.always 500) (seq 0 99)
      (initial_vars notebook_config tt) = Ok v
    /\ tv_i v = Some 98
    /\ loop_body notebook_config (Fixtures.always 500) 99 v
       = Ok (NextEpisode, v')
    /\ length (items (tv_episodes_reward v')) = 100
    /\ (inject_Z (reward_threshold notebook_config) < tv_running_reward v')%Q
    /\ min_episodes_criterion notebook_config = 99 + 1
    /\ (99 + 1 <? max_episodes notebook_config) = true
    /\ training_loop notebook_config (Fixtures.always 500) tt = Ok f
    /\ tv_i f = Some 100.
Proof.
  eexists. eexists. eexists.
  split; [vm_compute; reflexivity|].
  split; [reflexivity|].
  split; [vm_compute; reflexivity|].
  split; [reflexivity|].
  split; [reflexivity|].
  split; [reflexivity|].
  split; [vm_compute; reflexivity|].
  split; [vm_compute; reflexivity|].
  reflexivity.
Qed.

Lemma for_loop_raises_first {Sys : Type} (cfg : Config)
  (episode : Sys -> Err (Sys * Z)) (n : nat) (v : TrainVars Sys) (e : Exn) :
  0 < n ->
  episode (tv_sys v) = Raise e ->
  for_loop cfg episode (seq 0 n) v = Raise e.
Proof.
  intros Hn Hep. destruct n as [|n]; [lia|].
  cbn [seq for_loop]. unfold loop_body. now rewrite Hep.
Qed.

Lemma notebook_episode_type_error (C : Collaborators) (cfg : Config)
  (sys : World C * Params C * OptState C) :
  Episode.sampler_in_range C ->
  notebook_episode C cfg sys = Raise TypeError.
Proof.
  intro Hsampler. destruct sys as [[w model] optimizer].
  unfold notebook_episode.
  destruct (env_reset C (w_env w)) as [env initial_state].
  now rewrite TrainFacts.train_step_type_error.
Qed.

(** C10, on the code.  [train_step] returns no reward: with a simulator
    that pays 1 per step and never ends the episode, it raises the type
    error of [tf.expand_dims] on the unstacked tensor array, and so does
    the training loop at its first episode, before anything is appended
    to the reward history. *)
Theorem train_step_raises_type_error :
  train_step (Fixtures.counting 0 1) tt tt tt (99 / 100)%R 500
    (Fixtures.start 0 1)
  = Raise TypeError
  /\ notebook_training (Fixtures.counting 0 1) notebook_config
       (Fixtures.start 0 1, tt, tt)
     = Raise TypeError.
Proof.
  split.
  - apply TrainFacts.train_step_type_error.
    apply EpisodeFacts.counting_sampler_in_range.
  - unfold notebook_training, training_loop.
    apply for_loop_raises_first.
    + apply Nat.ltb_lt. vm_compute. reflexivity.
    + apply notebook_episode_type_error.
      apply EpisodeFacts.counting_sampler_in_range.
Qed.

End TrainerFacts.

(** * Further properties *)

(** ** Discounted returns: closed form, bound, constant episodes *)

Module ReturnsMore.

Import Returns Loss TFFacts ReturnsFacts LossFacts.

Local Open Scope R_scope.

Lemma discounted_cons (gamma r : R) (l : list R) :
  discounted gamma (r :: l)
  = r + gamma * nth 0 (discounted gamma l) 0 :: discounted gamma l.
Proof.
  cbn [discounted]. destruct (discounted gamma l) as [|g gs]; cbn [nth].
  - f_equal. lra.
  - reflexivity.
Qed.

Lemma sum_upto_head (n : nat) (f : nat -> R) :
  sum_upto (S n) f = f 0%nat + sum_upto n (fun k => f (S k)).
Proof.
  unfold sum_upto. cbn [seq map]. rewrite reduce_sum_cons.
  now rewrite <- seq_shift, map_map.
Qed.

Lemma sum_upto_scale (c : R) (n : nat) (f : nat -> R) :
  c * sum_upto n f = sum_upto n (fun k => c * f k).
Proof.
  induction n as [|n IH]; [unfold sum_upto; simpl; lra|].
  rewrite !sum_upto_succ, <- IH. lra.
Qed.

(** Every return is the discounted sum of the rewards from its step on. *)
Lemma discounted_closed_form (gamma : R) (l : list R) :
  forall i : nat,
    (i < length l)%nat ->
    nth i (discounted gamma l) 0
    = sum_upto (length l - i) (fun k => gamma ^ k * nth (i + k) l 0).
Proof.
  induction l as [|r l IH]; intros i Hi; [simpl in Hi; lia|].
  rewrite discounted_cons. destruct i as [|i].
  - cbn [nth length]. rewrite Nat.sub_0_r, sum_upto_head.
    cbn [Nat.add nth pow]. f_equal; [lra|].
    destruct l as [|r' l'].
    + cbn. unfold sum_upto. simpl. lra.
    + rewrite IH by (simpl; lia). rewrite Nat.sub_0_r, sum_upto_scale.
      apply sum_upto_ext. intros k _. cbn [Nat.add pow nth]. ring.
  - cbn [nth length Nat.sub]. rewrite IH by (simpl in Hi; lia).
    apply sum_upto_ext. intros k _. reflexivity.
Qed.

(** X1.  With standardization off, the return of step [i] is the sum of
    the rewards from step [i] to the end of the episode, the reward [k]
    steps later weighted by [gamma ^ k]. *)
Theorem get_expected_return_closed_form (rewards : list Z) (gamma : R)
  (i : nat) :
  (i < length rewards)%nat ->
  exists G : Tensor,
    get_expected_return rewards gamma false = Ok G
    /\ nth i G 0
       = sum_upto (length rewards - i)
           (fun k => gamma ^ k * IZR (nth (i + k) rewards 0%Z)).
Proof.
  intro Hi. exists (discounted gamma (map IZR rewards)).
  split; [apply get_expected_return_raw|].
  rewrite discounted_closed_form by now rewrite length_map.
  rewrite length_map. apply sum_upto_ext. intros k _.
  f_equal. change 0 with (IZR 0). apply map_nth.
Qed.

Lemma get_expected_return_closed_form_witness :
  exists G : Tensor,
    get_expected_return [1; 2; 3]%Z (1 / 2) false = Ok G
    /\ nth 1 G 0
       = sum_upto (3 - 1)
           (fun k => (1 / 2) ^ k * IZR (nth (1 + k) [1; 2; 3]%Z 0%Z)).
Proof.
  apply (get_expected_return_closed_form [1; 2; 3]%Z (1 / 2) 1).
  apply le_S, le_n.
Defined.

Lemma discounted_bounded (gamma B : R) (l : list R) :
  0 <= gamma < 1 ->
  Forall (fun r => Rabs r <= B) l ->
  Forall (fun g => Rabs g <= B / (1 - gamma)) (discounted gamma l).
Proof.
  intros Hg Hl. induction Hl as [|r l Hr _ IH]; [constructor|].
  rewrite discounted_cons. constructor; [|exact IH].
  assert (HB : 0 <= B) by (pose proof (Rabs_pos r); lra).
  assert (HM : 0 <= B / (1 - gamma))
    by (apply Rle_mult_inv_pos; lra).
  assert (Hnext : Rabs (nth 0 (discounted gamma l) 0) <= B / (1 - gamma)).
  { destruct (discounted gamma l) as [|g gs]; cbn [nth].
    - now rewrite Rabs_R0.
    - now inversion IH. }
  replace (B / (1 - gamma)) with (B + gamma * (B / (1 - gamma)))
    by (field; lra).
  eapply Rle_trans; [apply Rabs_triang|].
  rewrite Rabs_mult, (Rabs_pos_eq gamma) by lra.
  apply Rplus_le_compat; [exact Hr|].
  apply Rmult_le_compat_l; lra.
Qed.

(** X2.  With a discount in [0, 1) and rewards of absolute value at most
    [B], every discounted return has absolute value at most
    [B / (1 - gamma)], however long the episode. *)
Theorem get_expected_return_bounded (rewards : list Z) (gamma B : R) :
  0 <= gamma < 1 ->
  Forall (fun r => Rabs (IZR r) <= B) rewards ->
  exists G : Tensor,
    get_expected_return rewards gamma false = Ok G
    /\ Forall (fun g => Rabs g <= B / (1 - gamma)) G.
Proof.
  intros Hg Hr. exists (discounted gamma (map IZR rewards)).
  split; [apply get_expected_return_raw|].
  apply discounted_bounded; [exact Hg|].
  now apply Forall_map.
Qed.

Lemma get_expected_return_bounded_witness :
  exists G : Tensor,
    get_expected_return [1; 1; 1]%Z (99 / 100) false = Ok G
    /\ Forall (fun g => Rabs g <= 1 / (1 - 99 / 100)) G.
Proof.
  apply (get_expected_return_bounded [1; 1; 1]%Z (99 / 100) 1).
  - lra.
  - repeat constructor; rewrite Rabs_pos_eq; lra.
Defined.

Lemma all_equal_mean (c : R) (l : Tensor) :
  l <> [] -> Forall (fun g => g = c) l -> reduce_mean l = c.
Proof.
  intros Hne Hc. unfold reduce_mean. rewrite (all_equal_sum c l Hc).
  assert (INR (length l) <> 0)
    by (apply not_0_INR; destruct l; [contradiction | discriminate]).
  field. assumption.
Qed.

(** X3.  When all discounted returns of an episode are equal, as in an
    episode of one step, the standardized returns are all zero: the
    division by [0 + eps] is defined. *)
Theorem get_expected_return_constant (rewards : list Z) (gamma c : R)
  (G : Tensor) :
  get_expected_return rewards gamma false = Ok G ->
  Forall (fun g => g = c) G ->
  get_expected_return rewards gamma true = Ok (repeat 0 (length rewards))
  /\ (forall r : Z, get_expected_return [r] gamma true = Ok [0]).
Proof.
  intros HG Hc. pose proof eps_pos as He.
  assert (Hmap : forall (D : Tensor) (d : R),
             Forall (fun g => g = d) D ->
             map (fun g => (g - reduce_mean D) / (reduce_std D + eps)) D
             = repeat 0 (length D)).
  { intros D d HD. destruct D as [|x D]; [reflexivity|].
    rewrite (all_equal_std d _ HD), (all_equal_mean d) by (easy || exact HD).
    induction HD as [|y D' Hy _ IH]; [reflexivity|].
    cbn [map length repeat]. rewrite IH, Hy. f_equal. field. lra. }
  split.
  - rewrite get_expected_return_raw in HG. injection HG as <-.
    rewrite get_expected_return_standardized. cbv zeta.
    rewrite (Hmap _ c Hc), discounted_length, length_map. reflexivity.
  - intro r. rewrite get_expected_return_standardized. cbv zeta.
    change (discounted gamma (map IZR [r])) with [IZR r].
    rewrite (Hmap [IZR r] (IZR r)) by (repeat constructor). reflexivity.
Qed.

Lemma get_expected_return_constant_witness :
  get_expected_return [0; 0]%Z (1 / 2) true = Ok (repeat 0 (length [0; 0]%Z))
  /\ (forall r : Z, get_expected_return [r] (1 / 2) true = Ok [0]).
Proof.
  apply (get_expected_return_constant [0; 0]%Z (1 / 2) 0
           (discounted (1 / 2) (map IZR [0; 0]%Z))).
  - apply get_expected_return_raw.
  - cbn [map discounted]. repeat constructor; lra.
Defined.

End ReturnsMore.

(** ** The episode runner: recorded probabilities, early termination *)

Module EpisodeMore.

Import Episode TFFacts EpisodeFacts LossFacts.

Local Open Scope R_scope.






(** Past the step on which the simulator reported [done], the cap is
    never consulted. *)
Lemma episode_loop_cap (C : Collaborators) (model : Params C) (m n : nat) :
  forall (k : nat) (v : LoopVars C),
    (steps_taken C model n (lv_state v) (lv_world v) < n)%nat ->
    episode_loop C model (seq k (n + m)) v = episode_loop C model (seq k n) v.
Proof.
  induction n as [|n IH]; intros k v Hsteps; [inversion Hsteps|].
  cbn [Nat.add seq episode_loop steps_taken] in *.
  destruct (model_call C model (lv_state v)) as [logits value].
  cbn [fst] in Hsteps.
  destruct (categorical C (w_rng (lv_world v)) logits) as [action rng].
  destruct (ta_write (lv_values v) k value) as [values|]; [|reflexivity].
  cbn [bind].
  destruct (tensor_get (softmax logits) action) as [p|]; [|reflexivity].
  cbn [bind].
  destruct (ta_write (lv_action_probs v) k p) as [probs|]; [|reflexivity].
  cbn [bind].
  destruct (env_step C (w_env (lv_world v)) action)
    as [env [[state' reward] done]].
  destruct (ta_write (lv_rewards v) k reward) as [rewards|]; [|reflexivity].
  cbn [bind].
  destruct (done =? 0)%Z; [|reflexivity].
  apply IH. cbn [lv_state lv_world]. lia.
Qed.

(** X5.  When the simulator ends the episode before the cap, a larger cap
    gives the same episode: the same three results and the same simulator
    and generator afterwards. *)
Theorem run_episode_cap_irrelevant (C : Collaborators) (initial_state : Obs C)
  (model : Params C) (max_steps more : nat) (w : World C) :
  (steps_taken C model max_steps initial_state w < max_steps)%nat ->
  run_episode C initial_state model (max_steps + more) w
  = run_episode C initial_state model max_steps w.
Proof.
  intro Hsteps. unfold run_episode.
  now rewrite episode_loop_cap.
Qed.

Lemma run_episode_cap_irrelevant_witness :
  run_episode (Fixtures.counting 2 1) tt tt (3 + 497) (Fixtures.start 2 1)
  = run_episode (Fixtures.counting 2 1) tt tt 3 (Fixtures.start 2 1).
Proof.
  apply (run_episode_cap_irrelevant (Fixtures.counting 2 1) tt tt 3 497
           (Fixtures.start 2 1)).
  apply le_n.
Defined.

End EpisodeMore.

(** ** The loss: a perfect critic, and Huber against the squared error *)

Module LossMore.

Import Loss TFFacts LossFacts ReturnsMore.

Local Open Scope R_scope.

Lemma sum_upto_zero (n : nat) : sum_upto n (fun _ => 0) = 0.
Proof.
  induction n as [|n IH]; [reflexivity|].
  rewrite sum_upto_succ, IH. lra.
Qed.

(** X6.  When the value estimates are exactly the returns, the loss is
    zero whatever the recorded probabilities: both the actor term, whose
    advantages vanish, and the critic term. *)
Theorem compute_loss_perfect_critic (P G : Tensor) :
  length P = length G ->
  exists p g : Tensor2,
    expand_dims_1 (VTensor P) = Ok p
    /\ expand_dims_1 (VTensor G) = Ok g
    /\ compute_loss p g g = Ok 0.
Proof.
  intro Hlen. do 2 eexists.
  split; [reflexivity|]. split; [reflexivity|].
  rewrite compute_loss_columns by easy. f_equal.
  rewrite (sum_upto_ext (length P) _ (fun _ => 0))
    by (intros i _; ring).
  rewrite (sum_upto_ext (length P)
             (fun i => huber 1 (nth i G 0) (nth i G 0)) (fun _ => 0)).
  - rewrite sum_upto_zero. lra.
  - intros i _. rewrite huber_by_gap, Rminus_diag, Rabs_R0.
    apply huber_of_gap_0.
Qed.

Lemma compute_loss_perfect_critic_witness :
  exists p g : Tensor2,
    expand_dims_1 (VTensor [1 / 2; 1 / 4]) = Ok p
    /\ expand_dims_1 (VTensor [3; 1]) = Ok g
    /\ compute_loss p g g = Ok 0.
Proof.
  apply (compute_loss_perfect_critic [1 / 2; 1 / 4] [3; 1]). reflexivity.
Defined.

Lemma huber_of_gap_below_square (t : R) :
  0 <= t -> huber_of_gap t <= / 2 * (t * t).
Proof.
  intro Ht. unfold huber_of_gap. destruct (Rle_dec t 1); nra.
Qed.

Lemma huber_of_gap_below_gap (t : R) : 0 <= t -> huber_of_gap t <= t.
Proof.
  intro Ht. unfold huber_of_gap. destruct (Rle_dec t 1); nra.
Qed.

Lemma huber_of_gap_small (t : R) : t <= 1 -> huber_of_gap t = / 2 * (t * t).
Proof.
  intro Ht. unfold huber_of_gap. destruct (Rle_dec t 1); [reflexivity|lra].
Qed.

Lemma Rabs_square (x : R) : Rabs x * Rabs x = x * x.
Proof. unfold Rabs. destruct (Rcase_abs x); ring. Qed.

(** X7.  The critic term never exceeds half the summed squared error nor
    the summed absolute error, it is half the summed squared error when no
    step's gap exceeds 1, and it does not change when value estimates and
    returns are exchanged. *)
Theorem critic_loss_bounds (V G : Tensor) :
  length V = length G ->
  exists c : R,
    critic_loss V G = Ok c
    /\ critic_loss G V = Ok c
    /\ c <= / 2 * sum_upto (length V)
                    (fun i => (nth i G 0 - nth i V 0) * (nth i G 0 - nth i V 0))
    /\ c <= sum_upto (length V) (fun i => Rabs (nth i G 0 - nth i V 0))
    /\ ((forall i, (i < length V)%nat -> Rabs (nth i G 0 - nth i V 0) <= 1) ->
        c = / 2 * sum_upto (length V)
                    (fun i => (nth i G 0 - nth i V 0)
                              * (nth i G 0 - nth i V 0))).
Proof.
  intro Hlen.
  rewrite (critic_loss_sum V G), (critic_loss_sum G V) by easy.
  eexists. split; [reflexivity|]. split; [|split; [|split]].
  - f_equal. rewrite <- Hlen. apply sum_upto_ext. intros i _.
    now rewrite Rabs_minus_sym.
  - rewrite sum_upto_scale. apply sum_upto_le. intros i _.
    rewrite <- Rabs_square. apply huber_of_gap_below_square, Rabs_pos.
  - apply sum_upto_le. intros i _. apply huber_of_gap_below_gap, Rabs_pos.
  - intro Hsmall. rewrite sum_upto_scale. apply sum_upto_ext. intros i Hi.
    rewrite <- Rabs_square. apply huber_of_gap_small. now apply Hsmall.
Qed.

Lemma critic_loss_bounds_witness :
  exists c : R,
    critic_loss [0; 1] [1 / 2; 1] = Ok c
    /\ critic_loss [1 / 2; 1] [0; 1] = Ok c
    /\ c <= / 2 * sum_upto 2
                    (fun i => (nth i [1 / 2; 1] 0 - nth i [0; 1] 0)
                              * (nth i [1 / 2; 1] 0 - nth i [0; 1] 0))
    /\ c <= sum_upto 2 (fun i => Rabs (nth i [1 / 2; 1] 0 - nth i [0; 1] 0))
    /\ c = / 2 * sum_upto 2
                   (fun i => (nth i [1 / 2; 1] 0 - nth i [0; 1] 0)
                             * (nth i [1 / 2; 1] 0 - nth i [0; 1] 0)).
Proof.
  destruct (critic_loss_bounds [0; 1] [1 / 2; 1] eq_refl)
    as (c & H1 & H2 & H3 & H4 & H5).
  exists c. repeat split; try assumption.
  apply H5. intros [|[|i]] Hi; cbn [nth]; by_cases_on_abs.
Defined.

End LossMore.

(** ** The reward history as a sliding window *)

Module DequeMore.

Import Deque DequeFacts.

Lemma tl_skipn {A : Type} (n : nat) (l : list A) :
  tl (skipn n l) = skipn (S n) l.
Proof.
  revert l. induction n as [|n IH]; intros [|x l]; try reflexivity.
  cbn [skipn]. rewrite IH. now destruct l.
Qed.

Lemma append_keeps_latest (capacity : nat) (xs : list Z) (d : deque) (x : Z) :
  maxlen d = capacity ->
  items d = skipn (length xs - capacity) xs ->
  items (append d x) = skipn (length (xs ++ [x]) - capacity) (xs ++ [x]).
Proof.
  intros Hm Hitems. unfold append.
  rewrite Hitems, Hm, !length_app, length_skipn. cbn [length].
  destruct (Nat.ltb_spec capacity
              (length xs - (length xs - capacity) + 1)) as [Hfull|Hroom];
    cbn [items].
  - destruct (skipn (length xs - capacity) xs) as [|y rest] eqn:E.
    + assert (Hlen : length (skipn (length xs - capacity) xs) = 0)
        by now rewrite E.
      rewrite length_skipn in Hlen.
      cbn [app tl]. symmetry. apply skipn_all2.
      rewrite length_app. cbn [length]. lia.
    + cbn [app tl].
      change rest with (tl (y :: rest)). rewrite <- E, tl_skipn.
      rewrite skipn_app.
      replace (length xs + 1 - capacity) with (S (length xs - capacity))
        by lia.
      replace (S (length xs - capacity) - length xs) with 0; [reflexivity|].
      assert (Hlen : length (skipn (length xs - capacity) xs) <> 0)
        by now rewrite E.
      rewrite length_skipn in Hlen. lia.
  - replace (length xs - capacity) with 0 by lia.
    replace (length xs + 1 - capacity) with 0 by lia.
    reflexivity.
Qed.

(** X8.  After any sequence of appends to an empty reward history, the
    history holds exactly the latest [capacity] rewards appended, oldest
    first (all of them while fewer were appended; none when the capacity
    is zero). *)
Theorem reward_history_keeps_latest (capacity : nat) (xs : list Z) :
  maxlen (fold_left append xs (new capacity)) = capacity
  /\ items (fold_left append xs (new capacity))
     = skipn (length xs - capacity) xs
  /\ length (items (fold_left append xs (new capacity)))
     = Nat.min (length xs) capacity.
Proof.
  assert (H : maxlen (fold_left append xs (new capacity)) = capacity
              /\ items (fold_left append xs (new capacity))
                 = skipn (length xs - capacity) xs).
  { induction xs as [|x xs [IHm IHi]] using rev_ind; [now split|].
    rewrite fold_left_app. cbn [fold_left]. split.
    - now rewrite append_maxlen.
    - now apply append_keeps_latest. }
  destruct H as [Hm Hi]. split; [exact Hm|]. split; [exact Hi|].
  rewrite Hi, length_skipn. lia.
Qed.

End DequeMore.

(** ** The training loop: where it ends *)

Module TrainerMore.

Import Deque Train Trainer DequeFacts TrainerFacts.

Lemma sum_at_most (hi : Z) (data : list Z) :
  Forall (fun x => (x <= hi)%Z) data ->
  (fold_right Z.add 0%Z data <= Z.of_nat (length data) * hi)%Z.
Proof.
  induction 1 as [|x data Hx _ IH]; [simpl; lia|].
  cbn [fold_right]. change (length (x :: data)) with (S (length data)).
  lia.
Qed.

(** The mean of a window is at most any bound of its entries. *)
Lemma mean_at_most (hi : Z) (data : list Z) (m : Q) :
  Forall (fun x => (x <= hi)%Z) data ->
  mean data = Ok m ->
  (m <= inject_Z hi)%Q.
Proof.
  intros Hall Hmean. pose proof (sum_at_most hi data Hall) as Hhi.
  destruct data as [|x data]; [discriminate|].
  unfold mean in Hmean. injection Hmean as <-.
  apply Qle_shift_div_r.
  - change 0%Q with (inject_Z 0). rewrite <- Zlt_Qlt.
    change (length (x :: data)) with (S (length data)). lia.
  - rewrite <- inject_Z_mult, <- Zle_Qle.
    change (Z.pos (Pos.of_succ_nat (length data)))
      with (Z.of_nat (length (x :: data))).
    change (x + fold_right Z.add 0 data)%Z
      with (fold_right Z.add 0%Z (x :: data)).
    lia.
Qed.

Lemma append_length (d : deque) (x : Z) :
  length (items d) <= maxlen d ->
  length (items (append d x)) = Nat.min (S (length (items d))) (maxlen d).
Proof.
  intro Hd. unfold append. rewrite length_app. cbn [length].
  destruct (Nat.ltb_spec (maxlen d) (length (items d) + 1)); cbn [items].
  - destruct (items d) as [|y l]; cbn [app tl length] in *; [lia|].
    rewrite length_app. cbn [length]. lia.
  - rewrite length_app. cbn [length]. lia.
Qed.

Lemma append_nonempty (d : deque) (x : Z) :
  0 < maxlen d -> items (append d x) <> [].
Proof.
  intro Hpos. unfold append. rewrite length_app. cbn [length].
  destruct (Nat.ltb_spec (maxlen d) (length (items d) + 1)); cbn [items].
  - destruct (items d) as [|y l]; cbn [app tl length] in *; [lia|].
    now destruct l.
  - now destruct (items d).
Qed.

Lemma append_forall (P : Z -> Prop) (d : deque) (x : Z) :
  Forall P (items d) -> P x -> Forall P (items (append d x)).
Proof.
  intros Hd Hx. unfold append.
  assert (Hg : Forall P (items d ++ [x]))
    by (apply Forall_app; split; [exact Hd | now constructor]).
  destruct (maxlen d <? length (items d ++ [x])); cbn [items];
    [|exact Hg].
  destruct (items d ++ [x]); [constructor | now inversion Hg].
Qed.

(** From the episode of index [a] on, with a window that holds the
    rewards of the [a] episodes before: where a loop that returns has
    stopped, and what its variables are then. *)
Lemma for_loop_end {Sys : Type} (cfg : Config)
  (episode : Sys -> Err (Sys * Z)) (capacity n : nat) :
  forall (a : nat) (v f : TrainVars Sys),
    maxlen (tv_episodes_reward v) = capacity ->
    length (items (tv_episodes_reward v)) = Nat.min a capacity ->
    for_loop cfg episode (seq a (S n)) v = Ok f ->
    exists j : nat,
      tv_i f = Some j
      /\ a <= j <= a + n
      /\ (j = a + n \/ break_test cfg j (tv_running_reward f) = true)
      /\ mean (items (tv_episodes_reward f)) = Ok (tv_running_reward f)
      /\ maxlen (tv_episodes_reward f) = capacity
      /\ length (items (tv_episodes_reward f)) = Nat.min (S j) capacity.
Proof.
  induction n as [|n IH]; intros a v f Hm Hl;
    cbn [seq for_loop]; unfold loop_body;
    (destruct (episode (tv_sys v)) as [[sys r]|]; [|discriminate]);
    cbn [bind];
    (destruct (mean (items (append (tv_episodes_reward v) r))) as [m|] eqn:Em;
       [|discriminate]);
    cbn [bind];
    assert (Hlen : length (items (append (tv_episodes_reward v) r))
                   = Nat.min (S a) capacity)
      by (rewrite append_length by lia; lia);
    destruct (break_test cfg a m) eqn:Eb; cbn [bind fst snd for_loop].
  - intro H. injection H as <-. exists a. cbn.
    rewrite append_maxlen. repeat split; auto; lia.
  - intro H. injection H as <-. exists a. cbn.
    rewrite append_maxlen. repeat split; auto; lia.
  - intro H. injection H as <-. exists a. cbn.
    rewrite append_maxlen. repeat split; auto; lia.
  - intro H. apply (IH (S a)) in H.
    + destruct H as (j & Hj & Hrange & Hstop & Hrest).
      exists j. split; [exact Hj|]. split; [lia|].
      split; [|exact Hrest].
      destruct Hstop as [->|Hbreak]; [left; lia | now right].
    + cbn. now rewrite append_maxlen.
    + exact Hlen.
Qed.

(** X9.  When the training loop returns, it has stopped on an episode
    within the budget, either the last of the budget or one on which the
    break test held; the running reward is the mean of the reward
    history, which holds as many rewards as episodes were run, up to its
    capacity. *)
Theorem training_loop_end {Sys : Type} (cfg : Config)
  (episode : Sys -> Err (Sys * Z)) (sys : Sys) (f : TrainVars Sys) :
  0 < max_episodes cfg ->
  training_loop cfg episode sys = Ok f ->
  exists j : nat,
    tv_i f = Some j
    /\ j < max_episodes cfg
    /\ (S j = max_episodes cfg
        \/ ((inject_Z (reward_threshold cfg) < tv_running_reward f)%Q
            /\ min_episodes_criterion cfg <= j))
    /\ mean (items (tv_episodes_reward f)) = Ok (tv_running_reward f)
    /\ length (items (tv_episodes_reward f))
       = Nat.min (S j) (min_episodes_criterion cfg).
Proof.
  intros Hmax Hrun. unfold training_loop in Hrun.
  replace (max_episodes cfg) with (S (max_episodes cfg - 1)) in Hrun by lia.
  apply (for_loop_end cfg episode (min_episodes_criterion cfg)) in Hrun;
    [|reflexivity|reflexivity].
  destruct Hrun as (j & Hj & Hrange & Hstop & Hmean & _ & Hlen).
  exists j. split; [exact Hj|]. split; [lia|].
  split; [|now split].
  destruct Hstop as [->|Hbreak]; [left; lia|].
  right. now apply break_test_true.
Qed.

Lemma training_loop_end_witness :
  exists f : TrainVars unit,
    training_loop Fixtures.short_config (Fixtures.always 500) tt = Ok f
    /\ exists j : nat,
         tv_i f = Some j
         /\ j < max_episodes Fixtures.short_config
         /\ (S j = max_episodes Fixtures.short_config
             \/ ((inject_Z (reward_threshold Fixtures.short_config)
                  < tv_running_reward f)%Q
                 /\ min_episodes_criterion Fixtures.short_config <= j))
         /\ mean (items (tv_episodes_reward f)) = Ok (tv_running_reward f)
         /\ length (items (tv_episodes_reward f))
            = Nat.min (S j) (min_episodes_criterion Fixtures.short_config).
Proof.
  eexists. split; [vm_compute; reflexivity|].
  apply (training_loop_end Fixtures.short_config (Fixtures.always 500) tt).
  - apply Nat.lt_0_succ.
  - vm_compute. reflexivity.
Defined.

(** A loop whose break test cannot hold on the windows it meets runs
    every episode it was given. *)
Lemma for_loop_runs_out {Sys : Type} (cfg : Config)
  (episode : Sys -> Err (Sys * Z)) (P : Z -> Prop) (n : nat) :
  (forall s, exists s' r, episode s = Ok (s', r) /\ P r) ->
  forall (a : nat) (v : TrainVars Sys),
    0 < maxlen (tv_episodes_reward v) ->
    Forall P (items (tv_episodes_reward v)) ->
    (forall i data m,
        a <= i <= a + n -> Forall P data -> mean data = Ok m ->
        break_test cfg i m = false) ->
    exists f : TrainVars Sys,
      for_loop cfg episode (seq a (S n)) v = Ok f
      /\ tv_i f = Some (a + n)
      /\ mean (items (tv_episodes_reward f)) = Ok (tv_running_reward f)
      /\ Forall P (items (tv_episodes_reward f)).
Proof.
  intro Hep. induction n as [|n IH]; intros a v Hpos Hall Hno;
    cbn [seq for_loop]; unfold loop_body;
    destruct (Hep (tv_sys v)) as (sys & r & -> & Hr); cbn [bind];
    pose proof (append_nonempty (tv_episodes_reward v) r Hpos) as Hne;
    pose proof (append_forall P (tv_episodes_reward v) r Hall Hr) as Hall';
    (destruct (mean (items (append (tv_episodes_reward v) r))) as [m|] eqn:Em;
       [|destruct (items (append (tv_episodes_reward v) r));
          [contradiction | discriminate]]);
    cbn [bind];
    rewrite (Hno a (items (append (tv_episodes_reward v) r)) m)
      by (lia || assumption);
    cbn [bind fst snd for_loop].
  - eexists. split; [reflexivity|]. cbn. rewrite Nat.add_0_r. auto.
  - destruct (IH (S a)
                (MkTrainVars sys (append (tv_episodes_reward v) r) m (Some a)))
      as (f & Hrun & Hi & Hrest).
    + cbn. now rewrite append_maxlen.
    + exact Hall'.
    + intros i data q Hrange. apply Hno. lia.
    + exists f. split; [exact Hrun|].
      split; [rewrite Hi; f_equal; lia | exact Hrest].
Qed.

(** X10.  When every episode returns and none collects more than the
    reward threshold, the loop never breaks early: it runs the whole
    budget, and the running reward it ends with is at most the
    threshold. *)
Theorem training_loop_low_rewards {Sys : Type} (cfg : Config)
  (episode : Sys -> Err (Sys * Z)) (sys : Sys) :
  0 < max_episodes cfg ->
  0 < min_episodes_criterion cfg ->
  (forall s, exists s' r,
      episode s = Ok (s', r) /\ (r <= reward_threshold cfg)%Z) ->
  exists f : TrainVars Sys,
    training_loop cfg episode sys = Ok f
    /\ tv_i f = Some (max_episodes cfg - 1)
    /\ (tv_running_reward f <= inject_Z (reward_threshold cfg))%Q.
Proof.
  intros Hmax Hmin Hep. unfold training_loop.
  destruct (for_loop_runs_out cfg episode
              (fun r => (r <= reward_threshold cfg)%Z)
              (max_episodes cfg - 1) Hep 0 (initial_vars cfg sys))
    as (f & Hrun & Hi & Hmean & Hall).
  - exact Hmin.
  - constructor.
  - intros i data m _ Hdata Hm.
    destruct (break_test cfg i m) eqn:E; [|reflexivity].
    apply break_test_true in E. destruct E as [Hlt _].
    apply Qlt_not_le in Hlt. exfalso. apply Hlt.
    now apply (mean_at_most (reward_threshold cfg) data).
  - exists f. split; [|split; [exact Hi|]].
    + replace (max_episodes cfg) with (S (max_episodes cfg - 1)) by lia.
      exact Hrun.
    + now apply (mean_at_most (reward_threshold cfg)
                   (items (tv_episodes_reward f))).
Qed.

Lemma training_loop_low_rewards_witness :
  exists f : TrainVars unit,
    training_loop Fixtures.short_config (Fixtures.always 475) tt = Ok f
    /\ tv_i f = Some (max_episodes Fixtures.short_config - 1)
    /\ (tv_running_reward f
        <= inject_Z (reward_threshold Fixtures.short_config))%Q.
Proof.
  apply (training_loop_low_rewards Fixtures.short_config
           (Fixtures.always 475) tt).
  - apply Nat.lt_0_succ.
  - apply Nat.lt_0_succ.
  - intro s. exists s, 475%Z. split; [reflexivity | apply Z.le_refl].
Defined.

(** X11.  With a budget no larger than the minimum episode count, the
    success test can never hold: provided every episode returns, the loop
    runs the whole budget whatever the rewards. *)
Theorem training_loop_short_budget {Sys : Type} (cfg : Config)
  (episode : Sys -> Err (Sys * Z)) (sys : Sys) :
  0 < max_episodes cfg ->
  max_episodes cfg <= min_episodes_criterion cfg ->
  (forall s, exists s' r, episode s = Ok (s', r)) ->
  exists f : TrainVars Sys,
    training_loop cfg episode sys = Ok f
    /\ tv_i f = Some (max_episodes cfg - 1).
Proof.
  intros Hmax Hshort Hep. unfold training_loop.
  destruct (for_loop_runs_out cfg episode (fun _ => True)
              (max_episodes cfg - 1)) with (a := 0)
                                           (v := initial_vars cfg sys)
    as (f & Hrun & Hi & _).
  - intro s. destruct (Hep s) as (s' & r & Hs). now exists s', r.
  - cbn. lia.
  - constructor.
  - intros i data m Hrange _ _. unfold break_test.
    replace (min_episodes_criterion cfg <=? i) with false
      by (symmetry; apply Nat.leb_gt; lia).
    apply andb_false_r.
  - exists f. split; [|exact Hi].
    replace (max_episodes cfg) with (S (max_episodes cfg - 1)) by lia.
    exact Hrun.
Qed.

Lemma training_loop_short_budget_witness :
  exists f : TrainVars unit,
    training_loop (MkConfig 3 2 10 475 (99 / 100)%R) (Fixtures.always 500) tt
    = Ok f
    /\ tv_i f = Some (2 - 1).
Proof.
  apply (training_loop_short_budget (MkConfig 3 2 10 475 (99 / 100)%R)
           (Fixtures.always 500) tt).
  - apply Nat.lt_0_succ.
  - apply le_S, le_n.
  - intro s. now exists s, 500%Z.
Defined.

(** X12.  With a minimum episode count of zero the reward history has no
    room: the first episode's reward is dropped at once and the mean of
    the empty history raises, so the loop fails on its first episode. *)
Theorem training_loop_zero_capacity {Sys : Type} (cfg : Config)
  (episode : Sys -> Err (Sys * Z)) (sys sys' : Sys) (r : Z) :
  min_episodes_criterion cfg = 0 ->
  0 < max_episodes cfg ->
  episode sys = Ok (sys', r) ->
  training_loop cfg episode sys = Raise StatisticsError.
Proof.
  intros Hzero Hmax Hep. unfold training_loop.
  destruct (max_episodes cfg) as [|n]; [lia|].
  cbn [seq for_loop]. unfold loop_body, initial_vars. cbn [tv_sys].
  rewrite Hep, Hzero. reflexivity.
Qed.

Lemma training_loop_zero_capacity_witness :
  training_loop (MkConfig 0 5 10 475 (99 / 100)%R) (Fixtures.always 500) tt
  = Raise StatisticsError.
Proof.
  apply (training_loop_zero_capacity (MkConfig 0 5 10 475 (99 / 100)%R)
           (Fixtures.always 500) tt tt 500 eq_refl).
  - apply Nat.lt_0_succ.
  - reflexivity.
Defined.

(** X13.  Whatever the network, the simulator and the constants, with a
    sampler that keeps its contract: [train_step] raises the conversion
    error instead of returning, and the notebook's training loop with a
    positive budget raises it on its first episode. *)
Theorem notebook_training_type_error (C : Collaborators) (cfg : Config)
  (sys : World C * Params C * OptState C) :
  Episode.sampler_in_range C ->
  0 < max_episodes cfg ->
  (forall (initial_state : Obs C) (model : Params C) (optimizer : OptState C)
          (gamma : R) (max_steps : nat) (w : World C),
      train_step C initial_state model optimizer gamma max_steps w
      = Raise TypeError)
  /\ notebook_training C cfg sys = Raise TypeError.
Proof.
  intros Hsampler Hmax. split.
  - intros. now apply TrainFacts.train_step_type_error.
  - unfold notebook_training, training_loop.
    apply for_loop_raises_first; [exact Hmax|].
    now apply notebook_episode_type_error.
Qed.

Lemma notebook_training_type_error_witness :
  (forall (initial_state : unit) (model : unit) (optimizer : unit)
          (gamma : R) (max_steps : nat)
          (w : World (Fixtures.counting 3 1)),
      train_step (Fixtures.counting 3 1) initial_state model optimizer gamma
        max_steps w
      = Raise TypeError)
  /\ notebook_training (Fixtures.counting 3 1) Fixtures.short_config
       (Fixtures.start 3 1, tt, tt)
     = Raise TypeError.
Proof.
  apply (notebook_training_type_error (Fixtures.counting 3 1)
           Fixtures.short_config (Fixtures.start 3 1, tt, tt)).
  - apply EpisodeFacts.counting_sampler_in_range.
  - apply Nat.lt_0_succ.
Defined.

End TrainerMore.

(** ** The visualization *)

Module RenderFacts.

Import Render.

Local Open Scope R_scope.

(** The scan returns an index of the vector it scans, the first that
    holds its largest entry. *)
Lemma argmax_from_spec (rest : Tensor) :
  forall (pre : Tensor) (best : R) (best_i i0 : nat),
    i0 = length pre ->
    (best_i < length pre)%nat ->
    nth best_i pre 0 = best ->
    (forall j, (j < length pre)%nat -> nth j pre 0 <= best) ->
    (forall j, (j < best_i)%nat -> nth j pre 0 < best) ->
    (argmax_from best_i best i0 rest < length (pre ++ rest))%nat
    /\ (forall j, (j < length (pre ++ rest))%nat ->
                  nth j (pre ++ rest) 0
                  <= nth (argmax_from best_i best i0 rest) (pre ++ rest) 0)
    /\ (forall j, (j < argmax_from best_i best i0 rest)%nat ->
                  nth j (pre ++ rest) 0
                  < nth (argmax_from best_i best i0 rest) (pre ++ rest) 0).
Proof.
  induction rest as [|x rest IH];
    intros pre best best_i i0 Hi0 Hi Hbest Hmax Hfirst.
  - cbn [argmax_from]. rewrite app_nil_r, Hbest. auto.
  - cbn [argmax_from].
    assert (Hlen : length (pre ++ [x]) = S (length pre))
      by (rewrite length_app; simpl; lia).
    assert (Hx : nth (length pre) (pre ++ [x]) 0 = x)
      by (rewrite app_nth2, Nat.sub_diag by lia; reflexivity).
    replace (pre ++ x :: rest) with ((pre ++ [x]) ++ rest)
      by now rewrite <- app_assoc.
    destruct (Rlt_dec best x) as [Hlt|Hge].
    + apply IH.
      * lia.
      * lia.
      * now rewrite Hi0.
      * intros j Hj.
        destruct (Nat.eq_dec j (length pre)) as [->|Hne]; [rewrite Hx; lra|].
        rewrite app_nth1 by lia. assert (nth j pre 0 <= best) by (apply Hmax; lia).
        lra.
      * intros j Hj. rewrite app_nth1 by lia.
        assert (nth j pre 0 <= best) by (apply Hmax; lia). lra.
    + apply IH.
      * lia.
      * lia.
      * rewrite app_nth1 by lia. exact Hbest.
      * intros j Hj.
        destruct (Nat.eq_dec j (length pre)) as [->|Hne]; [rewrite Hx; lra|].
        rewrite app_nth1 by lia. apply Hmax. lia.
      * intros j Hj. rewrite app_nth1 by lia. now apply Hfirst.
Qed.

(** X14.  The greedy action of [render_episode] exists exactly when the
    model gives at least one score; it is then an index of the scores, no
    score is larger than its own, and every score before it is strictly
    smaller: ties go to the first. *)
Theorem argmax_first_largest (v : Tensor) :
  (v = [] -> argmax v = None)
  /\ (v <> [] ->
      exists i : nat,
        argmax v = Some i
        /\ (i < length v)%nat
        /\ (forall j, (j < length v)%nat -> nth j v 0 <= nth i v 0)
        /\ (forall j, (j < i)%nat -> nth j v 0 < nth i v 0)).
Proof.
  split; [now intros ->|].
  destruct v as [|x rest]; [contradiction|]. intros _.
  eexists. split; [reflexivity|].
  change (x :: rest) with ([x] ++ rest).
  apply (argmax_from_spec rest [x] x 0 1).
  - reflexivity.
  - simpl. lia.
  - reflexivity.
  - intros [|j] Hj; simpl in *; [lra | lia].
  - intros j Hj. lia.
Qed.

Lemma argmax_first_largest_witness :
  exists i : nat,
    argmax [1; 3; 3; 2] = Some i
    /\ (i < length [1; 3; 3; 2])%nat
    /\ (forall j, (j < length [1; 3; 3; 2])%nat ->
                  nth j [1; 3; 3; 2] 0 <= nth i [1; 3; 3; 2] 0)
    /\ (forall j, (j < i)%nat -> nth j [1; 3; 3; 2] 0 < nth i [1; 3; 3; 2] 0).
Proof.
  destruct (argmax_first_largest [1; 3; 3; 2]) as [_ H].
  apply H. discriminate.
Defined.

Lemma div_10_succ (a : nat) :
  (S a / 10 = a / 10 + (if S a mod 10 =? 0 then 1 else 0))%nat.
Proof.
  pose proof (Nat.div_mod_eq a 10) as Ha.
  pose proof (Nat.div_mod_eq (S a) 10) as HSa.
  pose proof (Nat.mod_upper_bound a 10) as Hb.
  pose proof (Nat.mod_upper_bound (S a) 10) as HSb.
  destruct (Nat.eqb_spec (S a mod 10) 0); lia.
Qed.

(** The loop from step [a + 1] on: it returns when the model always
    scores some action, keeps the frames it was given and adds at most one
    per step number divisible by ten, exactly that many when the
    simulator never reports [done]. *)
Lemma render_loop_frames (C : Collaborators) (V : Renderer C)
  (model : Params C) (n : nat) :
  (forall m s, fst (model_call C m s) <> []) ->
  forall (a : nat) (state : Obs C) (env : EnvState C)
         (images : list (Screen V)),
  exists (env' : EnvState C) (frames : list (Screen V)),
    render_loop C V model (seq (S a) n) state env images
    = Some (env', images ++ frames)
    /\ (length frames <= (a + n) / 10 - a / 10)%nat
    /\ ((forall e act, snd (snd (env_step C e act)) = 0%Z) ->
        length frames = ((a + n) / 10 - a / 10)%nat).
Proof.
  intro Hscores. induction n as [|n IH]; intros a state env images.
  - exists env, []. cbn [seq render_loop]. rewrite app_nil_r, Nat.add_0_r.
    repeat split; simpl; lia.
  - cbn [seq render_loop].
    pose proof (Hscores model state) as Hne.
    destruct (model_call C model state) as [action_probs value].
    cbn [fst] in Hne.
    destruct action_probs as [|x rest]; [contradiction|].
    cbn [argmax].
    assert (Hdone :
      (forall e act, snd (snd (env_step C e act)) = 0%Z) ->
      snd (snd (env_step C env (argmax_from 0 x 1 rest))) = 0%Z)
      by (intro H; apply H).
    destruct (env_step C env (argmax_from 0 x 1 rest))
      as [env1 [[state1 reward] done]].
    cbn [snd] in Hdone.
    pose proof (div_10_succ a) as Hdiv.
    assert (Hmono : (S a / 10 <= (S a + n) / 10)%nat)
      by (apply Nat.Div0.div_le_mono; lia).
    replace (a + S n)%nat with (S a + n)%nat by lia.
    destruct (S a mod 10 =? 0)%nat.
    + destruct (IH (S a) state1 env1 (images ++ [render V env1]))
        as (env' & frames & Hrun & Hle & Hexact).
      destruct (Z.eqb_spec done 0) as [Hz|Hnz].
      * exists env', (render V env1 :: frames).
        rewrite Hrun, <- app_assoc. split; [reflexivity|].
        cbn [length]. split; [lia|].
        intro Hnever. specialize (Hexact Hnever). lia.
      * exists env1, [render V env1]. split; [reflexivity|].
        cbn [length]. split; [lia|].
        intro Hnever. specialize (Hdone Hnever). contradiction.
    + destruct (IH (S a) state1 env1 images)
        as (env' & frames & Hrun & Hle & Hexact).
      destruct (Z.eqb_spec done 0) as [Hz|Hnz].
      * exists env', frames. split; [exact Hrun|].
        split; [lia|].
        intro Hnever. specialize (Hexact Hnever). lia.
      * exists env1, []. rewrite app_nil_r. split; [reflexivity|].
        cbn [length]. split; [lia|].
        intro Hnever. specialize (Hdone Hnever). contradiction.
Qed.

(** X15.  When the model always scores some action, [render_episode]
    returns a list of frames that starts with the screen of the freshly
    reset simulator and holds at most one more frame per ten steps of the
    cap, exactly that many when the simulator never reports [done]. *)
Theorem render_episode_frames (C : Collaborators) (V : Renderer C)
  (env : EnvState C) (model : Params C) (max_steps : nat) :
  (forall m s, fst (model_call C m s) <> []) ->
  exists (env' : EnvState C) (frames : list (Screen V)),
    render_episode C V env model max_steps
    = Some (env', render V (fst (env_reset C env)) :: frames)
    /\ (length frames <= max_steps / 10)%nat
    /\ ((forall e act, snd (snd (env_step C e act)) = 0%Z) ->
        length frames = (max_steps / 10)%nat).
Proof.
  intro Hscores. unfold render_episode.
  destruct (env_reset C env) as [env0 state]. cbn [fst].
  destruct (render_loop_frames C V model max_steps Hscores 0 state env0
              [render V env0])
    as (env' & frames & Hrun & Hle & Hexact).
  exists env', frames. split; [exact Hrun|].
  cbn [Nat.add] in Hle, Hexact.
  change (0 / 10)%nat with 0%nat in Hle, Hexact.
  rewrite Nat.sub_0_r in Hle, Hexact. now split.
Qed.

Lemma render_episode_frames_witness :
  exists (env' : nat) (frames : list nat),
    render_episode (Fixtures.counting 0 1) (Fixtures.step_counter 0 1) 7%nat
      tt 25
    = Some (env', 0%nat :: frames)
    /\ length frames = 2%nat.
Proof.
  destruct (render_episode_frames (Fixtures.counting 0 1)
              (Fixtures.step_counter 0 1) 7%nat tt 25)
    as (env' & frames & Hrun & _ & Hexact).
  - intros m s. discriminate.
  - exists env', frames. split; [exact Hrun|].
    apply Hexact. reflexivity.
Defined.

End RenderFacts.
